(** * Rate-limit middleware of the RevenueCat API client

    A shallow embedding of [src/rateLimitMiddleware.ts] (the revision whose
    [handleResponse] consults [isRetryable]) and the properties of its
    pre-send and post-receive hooks.

    Platform objects are modelled by what the middleware observes of them:
    a [Request] by its method and the components of [new URL(request.url)],
    a [Response] by its status, its header list and the outcome of
    [response.clone().json()].  JavaScript numbers that hold second and
    millisecond counts are integers of [Z]; this is exact up to 2^53. *)

From stdpp Require Import gmap strings list fin_maps.
From Stdlib Require Import ZArith Ascii String.
From Stdlib Require Import DecimalString DecimalN DecimalPos.

#[local] Set Warnings "-register-all".

Local Open Scope string_scope.
Local Open Scope Z_scope.

(** ** Platform data *)

(** The URL record that [new URL(request.url)] exposes. *)
Record URL := mkURL {
  protocol : string;
  host : string;
  pathname : string;
  search : string;
  hash : string
}.

Record Request := mkRequest {
  method : string;
  url : URL;
  reqBody : option string
}.

(** The value [clonedResponse.json()] resolves with.  An object is the list
    of its own properties, every key once. *)
Inductive JSON :=
| JNull
| JBool (b : bool)
| JNumber (n : Z)
| JString (s : string)
| JArray (items : list JSON)
| JObject (props : list (string * JSON)).

(** [jsonBody] is [None] when [response.clone().json()] throws or rejects:
    the body is not JSON text, or it was already consumed. *)
Record Response := mkResponse {
  status : Z;
  headers : list (string * string);
  jsonBody : option JSON
}.

(** *** [Headers.get] *)

Definition lower_ascii (c : ascii) : ascii :=
  let n := nat_of_ascii c in
  if ((65 <=? n) && (n <=? 90))%nat then ascii_of_nat (n + 32) else c.

Fixpoint lower (s : string) : string :=
  match s with
  | EmptyString => EmptyString
  | String c s' => String (lower_ascii c) (lower s')
  end.

Definition header_values (name : string) (hs : list (string * string)) : list string :=
  map snd (filter (fun h => bool_decide (lower (fst h) = lower name)) hs).

Fixpoint join_values (vs : list string) : string :=
  match vs with
  | [] => EmptyString
  | [v] => v
  | v :: rest => v ++ ", " ++ join_values rest
  end.

(** [headers.get(name)]: the values of every header of that name (compared
    without regard to ASCII case), joined by a comma and a space; [None]
    stands for [null]. *)
Definition headers_get (name : string) (hs : list (string * string)) : option string :=
  match header_values name hs with
  | [] => None
  | vs => Some (join_values vs)
  end.

(** *** [parseInt(string, 10)] *)

(** White space that [parseInt] skips, among the code units below 256. *)
Definition is_white_space (c : ascii) : bool :=
  let n := nat_of_ascii c in
  ((9 <=? n) && (n <=? 13) || (n =? 32) || (n =? 160))%nat.

Definition digit_value (c : ascii) : option Z :=
  let n := nat_of_ascii c in
  if ((48 <=? n) && (n <=? 57))%nat then Some (Z.of_nat (n - 48)) else None.

Fixpoint skip_white_space (s : string) : string :=
  match s with
  | String c s' => if is_white_space c then skip_white_space s' else s
  | EmptyString => EmptyString
  end.

(** The value of the longest prefix of decimal digits; [acc] is [None]
    until a digit has been read. *)
Fixpoint leading_digits (s : string) (acc : option Z) : option Z :=
  match s with
  | String c s' =>
      match digit_value c with
      | Some d => leading_digits s' (Some (10 * default 0 acc + d))
      | None => acc
      end
  | EmptyString => acc
  end.

(** [None] stands for [NaN]. *)
Definition parseInt10 (s : string) : option Z :=
  match skip_white_space s with
  | String "-" rest => Z.opp <$> leading_digits rest None
  | String "+" rest => leading_digits rest None
  | rest => leading_digits rest None
  end.

(** ** Retry policy *)

Definition maxRetries : nat := 3.
Definition maxQueueSize : Z := 100.

Definition getEndpointKey (request : Request) : string :=
  method request ++ ":" ++ pathname (url request).

(** A string is truthy when it is not empty. *)
Definition truthy (s : string) : bool :=
  match s with EmptyString => false | _ => true end.

Definition getRetryAfterTime (response : Response) : Z :=
  match headers_get "Retry-After" (headers response) with
  | Some retryAfter =>
      if truthy retryAfter then
        match parseInt10 retryAfter with
        | Some seconds => seconds
        | None => 1
        end
      else 1
  | None => 1
  end.

(** The own property [name] of an object made by [JSON.parse]. *)
Fixpoint get_prop (name : string) (props : list (string * JSON)) : option JSON :=
  match props with
  | [] => None
  | (k, v) :: rest => if bool_decide (k = name) then Some v else get_prop name rest
  end.

(** [typeof body === "object"] holds of objects, arrays and [null]. *)
Definition typeof_object (body : JSON) : bool :=
  match body with
  | JNull | JArray _ | JObject _ => true
  | _ => false
  end.

Definition is_null (body : JSON) : bool :=
  match body with JNull => true | _ => false end.

(** [name in body]; an array has index keys and [length] only. *)
Definition has_prop (name : string) (body : JSON) : bool :=
  match body with
  | JObject props => bool_decide (is_Some (get_prop name props))
  | _ => false
  end.

(** [body[name] !== false]. *)
Definition prop_is_not_false (name : string) (body : JSON) : bool :=
  match body with
  | JObject props =>
      match get_prop name props with
      | Some (JBool false) => false
      | _ => true
      end
  | _ => true
  end.

(** The body of [isRetryable] after [await clonedResponse.json()]; [None]
    is the [catch] branch. *)
Definition retryable_body (parsed : option JSON) : bool :=
  match parsed with
  | Some body =>
      if typeof_object body && negb (is_null body) && has_prop "retryable" body
      then prop_is_not_false "retryable" body
      else true
  | None => true
  end.

(** ** Endpoint state *)

(** A queued request without its [resolve] and [reject] callbacks. *)
Record QueuedRequest := mkQueued {
  qRequest : Request;
  qOptions : list (string * string);
  retryCount : Z
}.

Record EndpointState := mkState {
  isThrottled : bool;
  retryAfter : Z;
  queue : list QueuedRequest;
  lastRetryTime : Z;
  processing : bool
}.

Definition freshState : EndpointState :=
  {| isThrottled := false; retryAfter := 0; queue := [];
     lastRetryTime := 0; processing := false |}.

Definition Error := string.

(** ** Asynchronous programs

    The methods of [RateLimitManager] are programs over the operations
    they perform: reads and writes of [endpointStates], [Date.now()],
    [console.warn], and the three [await]s ([this.delay], [fetch] and
    [clonedResponse.json()]).  [state.field = v] writes through the object
    stored under the key; [endpointStates] never replaces or deletes an
    entry, so that object is the entry of the key. *)

Inductive Eff : Type -> Type :=
| DateNow : Eff Z
| StatesHas (key : string) : Eff bool
| StatesSet (key : string) (st : EndpointState) : Eff unit
| StatesGet (key : string) : Eff (option EndpointState)
| SetIsThrottled (key : string) (b : bool) : Eff unit
| SetRetryAfter (key : string) (seconds : Z) : Eff unit
| SetLastRetryTime (key : string) (t : Z) : Eff unit
| ConsoleWarn (message : string) : Eff unit
| Delay (ms : Z) : Eff unit
| Fetch (request : Request) (options : list (string * string)) : Eff (Response + Error)
| CloneJson (response : Response) : Eff (option JSON).

Inductive Async (A : Type) : Type :=
| Ret (a : A)
| Throw (e : Error)
| Vis {X : Type} (e : Eff X) (k : X -> Async A).

Arguments Ret {A} a.
Arguments Throw {A} e.
Arguments Vis {A X} e k.

Fixpoint bind {A B : Type} (m : Async A) (f : A -> Async B) : Async B :=
  match m with
  | Ret a => f a
  | Throw e => Throw e
  | Vis e k => Vis e (fun x => bind (k x) f)
  end.

Definition perform {X : Type} (e : Eff X) : Async X := Vis e Ret.

#[global] Instance Async_ret : MRet Async := @Ret.
#[global] Instance Async_bind : MBind Async := fun A B f m => bind m f.

(** ** The manager *)

(** [await this.isRetryable(response)]. *)
Definition isRetryable (response : Response) : Async bool :=
  parsed ← perform (CloneJson response);
  mret (retryable_body parsed).

(** [if (!this.endpointStates.has(key)) this.endpointStates.set(key, {...})]. *)
Definition initEndpointState (endpointKey : string) : Async unit :=
  present ← perform (StatesHas endpointKey);
  if negb present then perform (StatesSet endpointKey freshState) else mret tt.

(** [this.endpointStates.get(key)!]: reading a field of [undefined] is a
    [TypeError]. *)
Definition getState (endpointKey : string) : Async EndpointState :=
  found ← perform (StatesGet endpointKey);
  match found with
  | Some state => mret state
  | None => Throw "TypeError"
  end.

Definition waitForThrottle (request : Request) : Async unit :=
  let endpointKey := getEndpointKey request in
  initEndpointState endpointKey;;
  state ← getState endpointKey;
  if isThrottled state then
    now ← perform DateNow;
    let waitTime := lastRetryTime state + retryAfter state * 1000 - now in
    (if 0 <? waitTime then perform (Delay waitTime) else mret tt);;
    perform (SetIsThrottled endpointKey false)
  else mret tt.

(** The [for] loop of [handleResponse]; [remaining] is
    [maxRetries - attempt]. *)
Fixpoint retryLoop (remaining : nat) (request : Request) (endpointKey : string)
    (retryAfter : Z) (lastResponse : Response) : Async Response :=
  match remaining with
  | O =>
      perform (SetIsThrottled endpointKey false);;
      mret lastResponse
  | S remaining' =>
      perform (Delay (retryAfter * 1000));;
      outcome ← perform (Fetch request []);
      match outcome with
      | inl retryResponse =>
          if negb (status retryResponse =? 429) then
            perform (SetIsThrottled endpointKey false);;
            mret retryResponse
          else
            shouldRetryAgain ← isRetryable retryResponse;
            if negb shouldRetryAgain then
              perform (SetIsThrottled endpointKey false);;
              mret retryResponse
            else
              let retryAfter := getRetryAfterTime retryResponse in
              perform (SetRetryAfter endpointKey retryAfter);;
              now ← perform DateNow;
              perform (SetLastRetryTime endpointKey now);;
              retryLoop remaining' request endpointKey retryAfter retryResponse
      | inr error =>
          perform (SetIsThrottled endpointKey false);;
          Throw error
      end
  end.

Definition handleResponse (request : Request) (response : Response) : Async Response :=
  if negb (status response =? 429) then mret response
  else
    shouldRetry ← isRetryable response;
    if negb shouldRetry then mret response
    else
      let endpointKey := getEndpointKey request in
      initEndpointState endpointKey;;
      _ ← getState endpointKey;
      let retryAfter := getRetryAfterTime response in
      perform (SetIsThrottled endpointKey true);;
      perform (SetRetryAfter endpointKey retryAfter);;
      now ← perform DateNow;
      perform (SetLastRetryTime endpointKey now);;
      retryLoop maxRetries request endpointKey retryAfter response.

(** [state?.queue.length || 0]. *)
Definition getQueueSize (request : Request) : Async Z :=
  let endpointKey := getEndpointKey request in
  found ← perform (StatesGet endpointKey);
  mret (match found with
        | Some state => Z.of_nat (List.length (queue state))
        | None => 0
        end).

Definition warnIfQueueTooLarge (request : Request) : Async unit :=
  queueSize ← getQueueSize request;
  if maxQueueSize <=? queueSize then
    let endpointKey := getEndpointKey request in
    perform (ConsoleWarn
      ("[RevenueCat API] Rate limit queue for " ++ endpointKey ++
       " has reached maximum size of 100. Consider implementing additional throttling."))
  else mret tt.

(** The two hooks of [createRateLimitMiddleware]; [None] is [undefined]. *)
Definition onRequest (request : Request) : Async (option Request) :=
  waitForThrottle request;;
  warnIfQueueTooLarge request;;
  mret None.

Definition onResponse (request : Request) (response : Response) : Async (option Response) :=
  if status response =? 429 then
    result ← handleResponse request response;
    mret (Some result)
  else mret None.

(** The earlier revision of [handleResponse], kept in the source file: it
    has no [isRetryable] and retries every 429. *)
Module Earlier.

Fixpoint retryLoop (remaining : nat) (request : Request) (endpointKey : string)
    (retryAfter : Z) (lastResponse : Response) : Async Response :=
  match remaining with
  | O =>
      perform (SetIsThrottled endpointKey false);;
      mret lastResponse
  | S remaining' =>
      perform (Delay (retryAfter * 1000));;
      outcome ← perform (Fetch request []);
      match outcome with
      | inl retryResponse =>
          if negb (status retryResponse =? 429) then
            perform (SetIsThrottled endpointKey false);;
            mret retryResponse
          else
            let retryAfter := getRetryAfterTime retryResponse in
            perform (SetRetryAfter endpointKey retryAfter);;
            now ← perform DateNow;
            perform (SetLastRetryTime endpointKey now);;
            retryLoop remaining' request endpointKey retryAfter retryResponse
      | inr error =>
          perform (SetIsThrottled endpointKey false);;
          Throw error
      end
  end.

Definition handleResponse (request : Request) (response : Response) : Async Response :=
  if negb (status response =? 429) then mret response
  else
    let endpointKey := getEndpointKey request in
    initEndpointState endpointKey;;
    _ ← getState endpointKey;
    let retryAfter := getRetryAfterTime response in
    perform (SetIsThrottled endpointKey true);;
    perform (SetRetryAfter endpointKey retryAfter);;
    now ← perform DateNow;
    perform (SetLastRetryTime endpointKey now);;
    retryLoop maxRetries request endpointKey retryAfter response.

End Earlier.

(** ** Operations on [endpointStates] *)

Definition with_isThrottled (b : bool) (st : EndpointState) : EndpointState :=
  {| isThrottled := b; retryAfter := retryAfter st; queue := queue st;
     lastRetryTime := lastRetryTime st; processing := processing st |}.

Definition with_retryAfter (seconds : Z) (st : EndpointState) : EndpointState :=
  {| isThrottled := isThrottled st; retryAfter := seconds; queue := queue st;
     lastRetryTime := lastRetryTime st; processing := processing st |}.

Definition with_lastRetryTime (t : Z) (st : EndpointState) : EndpointState :=
  {| isThrottled := isThrottled st; retryAfter := retryAfter st; queue := queue st;
     lastRetryTime := t; processing := processing st |}.

(** The map after [if (!endpointStates.has(key)) endpointStates.set(key, {...})]. *)
Definition ensure (key : string) (σ : gmap string EndpointState) : gmap string EndpointState :=
  match σ !! key with
  | Some _ => σ
  | None => <[key := freshState]> σ
  end.

(** What an operation that does not suspend returns and does to the map,
    at time [now]; [None] for the three [await]s. *)
Definition sync_step {X : Type} (e : Eff X) (σ : gmap string EndpointState) (now : Z)
    : option (X * gmap string EndpointState) :=
  match e in Eff X return option (X * gmap string EndpointState) with
  | DateNow => Some (now, σ)
  | StatesHas key => Some (bool_decide (is_Some (σ !! key)), σ)
  | StatesSet key st => Some (tt, <[key := st]> σ)
  | StatesGet key => Some (σ !! key, σ)
  | SetIsThrottled key b => Some (tt, alter (with_isThrottled b) key σ)
  | SetRetryAfter key seconds => Some (tt, alter (with_retryAfter seconds) key σ)
  | SetLastRetryTime key t => Some (tt, alter (with_lastRetryTime t) key σ)
  | ConsoleWarn _ => Some (tt, σ)
  | Delay _ => None
  | Fetch _ _ => None
  | CloneJson _ => None
  end.

(** ** One hook run to completion

    The environment of a run: how long each suspension lasts beyond its
    minimum, and what the transport answers to each send. *)

Inductive Event :=
| EvDelay (ms : Z)
| EvFetch (request : Request) (options : list (string * string))
| EvWarn (message : string).

Record Env := mkEnv {
  lag : nat -> nat;
  transport : nat -> Request -> Response + Error
}.

Record World := mkWorld {
  states : gmap string EndpointState;
  clock : Z;
  awaits : nat;
  sends : nat;
  trace : list Event
}.

(** The least time a timer of [ms] milliseconds takes: [setTimeout] honours
    delays of 0 to 2^31-1 ms and treats others as it sees fit. *)
Definition timer_floor (ms : Z) : Z :=
  if (0 <=? ms) && (ms <=? 2147483647) then ms else 0.

Definition with_states (σ : gmap string EndpointState) (w : World) : World :=
  {| states := σ; clock := clock w; awaits := awaits w; sends := sends w;
     trace := trace w |}.

Definition record (ev : Event) (w : World) : World :=
  {| states := states w; clock := clock w; awaits := awaits w; sends := sends w;
     trace := trace w ++ [ev] |}.

(** A suspension that lasts at least [least] ms. *)
Definition suspend (env : Env) (least : Z) (w : World) : World :=
  {| states := states w;
     clock := clock w + least + Z.of_nat (lag env (awaits w));
     awaits := S (awaits w); sends := sends w; trace := trace w |}.

Definition sent (w : World) : World :=
  {| states := states w; clock := clock w; awaits := awaits w; sends := S (sends w);
     trace := trace w |}.

Definition handle {X : Type} (env : Env) (e : Eff X) (w : World) : X * World :=
  match e in Eff X return X * World with
  | DateNow => (clock w, w)
  | StatesHas key => (bool_decide (is_Some (states w !! key)), w)
  | StatesSet key st => (tt, with_states (<[key := st]> (states w)) w)
  | StatesGet key => (states w !! key, w)
  | SetIsThrottled key b =>
      (tt, with_states (alter (with_isThrottled b) key (states w)) w)
  | SetRetryAfter key seconds =>
      (tt, with_states (alter (with_retryAfter seconds) key (states w)) w)
  | SetLastRetryTime key t =>
      (tt, with_states (alter (with_lastRetryTime t) key (states w)) w)
  | ConsoleWarn message => (tt, record (EvWarn message) w)
  | Delay ms => (tt, suspend env (timer_floor ms) (record (EvDelay ms) w))
  | Fetch request options =>
      (transport env (sends w) request,
       suspend env 0 (sent (record (EvFetch request options) w)))
  | CloneJson response => (jsonBody response, suspend env 0 w)
  end.

Inductive Completion (A : Type) : Type :=
| Resolved (a : A)
| Rejected (e : Error).

Arguments Resolved {A} a.
Arguments Rejected {A} e.

Fixpoint run {A : Type} (env : Env) (p : Async A) (w : World) : Completion A * World :=
  match p with
  | Ret a => (Resolved a, w)
  | Throw e => (Rejected e, w)
  | Vis e k => let '(x, w') := handle env e w in run env (k x) w'
  end.

(** What a trace says of a run. *)
Definition is_delay (ev : Event) : bool :=
  match ev with EvDelay _ => true | _ => false end.

Definition is_fetch (ev : Event) : bool :=
  match ev with EvFetch _ _ => true | _ => false end.

Definition delays (t : list Event) : list Event := filter (fun ev => is_delay ev = true) t.
Definition fetches (t : list Event) : list Event := filter (fun ev => is_fetch ev = true) t.

Definition throttled (σ : gmap string EndpointState) (key : string) : bool :=
  match σ !! key with
  | Some st => isThrottled st
  | None => false
  end.

(** The world after [waitForThrottle] and after [warnIfQueueTooLarge]. *)
Definition waited (env : Env) (request : Request) (w : World) : World :=
  let key := getEndpointKey request in
  match states w !! key with
  | None => with_states (<[key := freshState]> (states w)) w
  | Some st =>
      if isThrottled st then
        let waitTime := lastRetryTime st + retryAfter st * 1000 - clock w in
        with_states (alter (with_isThrottled false) key (states w))
          (if 0 <? waitTime
           then suspend env (timer_floor waitTime) (record (EvDelay waitTime) w)
           else w)
      else w
  end.

Definition queue_size (found : option EndpointState) : Z :=
  match found with
  | Some state => Z.of_nat (List.length (queue state))
  | None => 0
  end.

Definition warned (request : Request) (w : World) : World :=
  if maxQueueSize <=? queue_size (states w !! getEndpointKey request)
  then record (EvWarn
         ("[RevenueCat API] Rate limit queue for " ++ getEndpointKey request ++
          " has reached maximum size of 100. Consider implementing additional throttling."))
         w
  else w.

(** The worlds a run of [handleResponse] passes through. *)

(** The world in which the retry loop starts: the signal is on record. *)
Definition armed (env : Env) (request : Request) (response : Response) (w : World) : World :=
  let key := getEndpointKey request in
  let w1 := suspend env 0 w in
  with_states
    (alter (with_lastRetryTime (clock w1)) key
       (alter (with_retryAfter (getRetryAfterTime response)) key
          (alter (with_isThrottled true) key (ensure key (states w))))) w1.

(** One turn of the loop. *)
Definition after_delay (env : Env) (ms : Z) (w : World) : World :=
  suspend env (timer_floor ms) (record (EvDelay ms) w).

Definition after_fetch (env : Env) (request : Request) (w : World) : World :=
  suspend env 0 (sent (record (EvFetch request []) w)).

Definition cleared (key : string) (w : World) : World :=
  with_states (alter (with_isThrottled false) key (states w)) w.

Definition refreshed (env : Env) (key : string) (r : Response) (w : World) : World :=
  let w1 := suspend env 0 w in
  with_states
    (alter (with_lastRetryTime (clock w1)) key
       (alter (with_retryAfter (getRetryAfterTime r)) key (states w))) w1.

(** A 429 that the retry policy lets the loop retry. *)
Definition retryable429 (response : Response) : bool :=
  (status response =? 429) && retryable_body (jsonBody response).

(** ** Hooks in flight

    Calls of the two hooks run concurrently on one event loop: a call runs
    without interruption up to its next [await], and resumes, again without
    interruption, when what it awaits settles.  The moves of the
    environment are the calls of the hooks, the passing of time, and the
    settling of a timer, of a send and of a body read. *)

(** A hook call: its request, when it last suspended, and what is left of
    it. *)
Inductive Task :=
| RequestTask (request : Request) (since : Z) (p : Async (option Request))
| ResponseTask (request : Request) (since : Z) (p : Async (option Response)).

Definition task_request (t : Task) : Request :=
  match t with
  | RequestTask request _ _ => request
  | ResponseTask request _ _ => request
  end.

(** [signals] is a history variable: for each endpoint, the [Retry-After]
    seconds and the time of the last retryable 429 a hook has seen for
    it. *)
Record System := mkSystem {
  store : gmap string EndpointState;
  time : Z;
  pool : list Task;
  signals : gmap string (Z * Z)
}.

Definition boot (t0 : Z) : System :=
  {| store := ∅; time := t0; pool := []; signals := ∅ |}.

(** Run a program up to its next [await]. *)
Fixpoint advance {A : Type} (p : Async A) (σ : gmap string EndpointState) (now : Z)
    : Async A * gmap string EndpointState :=
  match p with
  | Vis e k =>
      match sync_step e σ now with
      | Some (x, σ') => advance (k x) σ' now
      | None => (p, σ)
      end
  | _ => (p, σ)
  end.

Definition resume_timer (since now : Z) {A : Type} (p : Async A) : option (Async A) :=
  match p with
  | Vis e k =>
      match e in Eff X return (X -> Async A) -> option (Async A) with
      | Delay ms => fun k =>
          if since + timer_floor ms <=? now then Some (k tt) else None
      | _ => fun _ => None
      end k
  | _ => None
  end.

Definition resume_fetch (outcome : Response + Error) {A : Type} (p : Async A)
    : option (Async A) :=
  match p with
  | Vis e k =>
      match e in Eff X return (X -> Async A) -> option (Async A) with
      | Fetch _ _ => fun k => Some (k outcome)
      | _ => fun _ => None
      end k
  | _ => None
  end.

Definition resume_json {A : Type} (p : Async A) : option (Async A) :=
  match p with
  | Vis e k =>
      match e in Eff X return (X -> Async A) -> option (Async A) with
      | CloneJson response => fun k => Some (k (jsonBody response))
      | _ => fun _ => None
      end k
  | _ => None
  end.

(** The response whose body the program is reading. *)
Definition awaited_body {A : Type} (p : Async A) : option Response :=
  match p with
  | Vis e _ =>
      match e with
      | CloneJson response => Some response
      | _ => None
      end
  | _ => None
  end.

Definition task_awaited_body (t : Task) : option Response :=
  match t with
  | RequestTask _ _ p => awaited_body p
  | ResponseTask _ _ p => awaited_body p
  end.

(** Resume a task where [pick] says it can be, and run it to its next
    [await]. *)
Definition resume_task (pick : Z -> forall A : Type, Async A -> option (Async A))
    (σ : gmap string EndpointState) (now : Z) (t : Task)
    : option (Task * gmap string EndpointState) :=
  match t with
  | RequestTask request since p =>
      match pick since _ p with
      | Some p' => let '(p'', σ') := advance p' σ now in
                   Some (RequestTask request now p'', σ')
      | None => None
      end
  | ResponseTask request since p =>
      match pick since _ p with
      | Some p' => let '(p'', σ') := advance p' σ now in
                   Some (ResponseTask request now p'', σ')
      | None => None
      end
  end.

(** The signal a task will see when the body it reads settles. *)
Definition signal_of (t : Task) (now : Z) : option (string * (Z * Z)) :=
  match task_awaited_body t with
  | Some response =>
      if retryable429 response
      then Some (getEndpointKey (task_request t), (getRetryAfterTime response, now))
      else None
  | None => None
  end.

Definition note_signal (sig : option (string * (Z * Z))) (g : gmap string (Z * Z))
    : gmap string (Z * Z) :=
  match sig with
  | Some (key, v) => <[key := v]> g
  | None => g
  end.

Inductive Move :=
| Tick (dt : nat)
| CallOnRequest (request : Request)
| CallOnResponse (request : Request) (response : Response)
| TimerFires (i : nat)
| FetchSettles (i : nat) (outcome : Response + Error)
| JsonSettles (i : nat).

Definition resume_at (pick : Z -> forall A : Type, Async A -> option (Async A))
    (i : nat) (g : gmap string (Z * Z)) (s : System) : option System :=
  match pool s !! i with
  | Some t =>
      match resume_task pick (store s) (time s) t with
      | Some (t', σ') =>
          Some {| store := σ'; time := time s; pool := <[i := t']> (pool s);
                  signals := g |}
      | None => None
      end
  | None => None
  end.

Definition apply_move (m : Move) (s : System) : option System :=
  match m with
  | Tick dt =>
      Some {| store := store s; time := time s + Z.of_nat dt; pool := pool s;
              signals := signals s |}
  | CallOnRequest request =>
      let '(p, σ') := advance (onRequest request) (store s) (time s) in
      Some {| store := σ'; time := time s;
              pool := pool s ++ [RequestTask request (time s) p];
              signals := signals s |}
  | CallOnResponse request response =>
      let '(p, σ') := advance (onResponse request response) (store s) (time s) in
      Some {| store := σ'; time := time s;
              pool := pool s ++ [ResponseTask request (time s) p];
              signals := signals s |}
  | TimerFires i =>
      resume_at (fun since => @resume_timer since (time s)) i (signals s) s
  | FetchSettles i outcome =>
      resume_at (fun _ => @resume_fetch outcome) i (signals s) s
  | JsonSettles i =>
      match pool s !! i with
      | Some t =>
          resume_at (fun _ => @resume_json) i
            (note_signal (signal_of t (time s)) (signals s)) s
      | None => None
      end
  end.

Fixpoint exec (ms : list Move) (s : System) : option System :=
  match ms with
  | [] => Some s
  | m :: ms' =>
      match apply_move m s with
      | Some s' => exec ms' s'
      | None => None
      end
  end.

Inductive reachable : System -> Prop :=
| reach_boot t0 : reachable (boot t0)
| reach_move s m s' : reachable s -> apply_move m s = Some s' -> reachable s'.

(** The first [i] sends from the [first]-th on are answered by 429s that
    may be retried. *)
Definition still_limited (env : Env) (request : Request) (first i : nat) : Prop :=
  forall j, (j < i)%nat ->
    exists r, transport env (first + j)%nat request = inl r /\ retryable429 r = true.

(** ** The protocol of a hook

    What a hook for the endpoint [key] may do to [endpointStates], stage by
    stage.  A hook is [Quiet] until the body it reads turns out to be that
    of a retryable 429; it is then [Noting] that response, and has to
    write [retryAfter] ([Stamping]), read the clock ([Sealing]) and write
    [lastRetryTime] before it suspends or ends.  While [Quiet] it neither
    sets a throttled flag nor writes the two other fields.  [known] records
    that the entry of [key] is known to exist. *)

Inductive Stage :=
| Quiet
| Noting (response : Response) (known : bool)
| Stamping
| Sealing (now : Z).

Definition allowed (key : string) (stage : Stage) {X : Type} (e : Eff X)
    (next : Stage -> X -> Prop) : Prop :=
  match e in Eff X return (Stage -> X -> Prop) -> Prop with
  | DateNow => fun next =>
      match stage with
      | Quiet | Noting _ _ => forall now, next stage now
      | Stamping => forall now, next (Sealing now) now
      | Sealing _ => False
      end
  | StatesHas k => fun next =>
      match stage with
      | Quiet => forall present, next Quiet present
      | Noting r known =>
          forall present,
            next (Noting r (known || present && bool_decide (k = key))) present
      | _ => False
      end
  | StatesSet k st => fun next =>
      isThrottled st = false /\
      match stage with
      | Quiet => next Quiet tt
      | Noting r known => next (Noting r (known || bool_decide (k = key))) tt
      | _ => False
      end
  | StatesGet k => fun next =>
      match stage with
      | Quiet => forall found, next Quiet found
      | Noting r known =>
          if known && bool_decide (k = key)
          then forall st, next stage (Some st)
          else forall found, next stage found
      | _ => False
      end
  | SetIsThrottled k b => fun next =>
      match stage with
      | Quiet => b = false /\ next Quiet tt
      | Noting _ _ => (b = false \/ k = key) /\ next stage tt
      | _ => False
      end
  | SetRetryAfter k seconds => fun next =>
      match stage with
      | Noting r _ => k = key /\ seconds = getRetryAfterTime r /\ next Stamping tt
      | _ => False
      end
  | SetLastRetryTime k t => fun next =>
      match stage with
      | Sealing now => k = key /\ t = now /\ next Quiet tt
      | _ => False
      end
  | ConsoleWarn _ => fun next =>
      match stage with
      | Quiet | Noting _ _ => next stage tt
      | _ => False
      end
  | Delay _ => fun next => stage = Quiet /\ next Quiet tt
  | Fetch _ _ => fun next => stage = Quiet /\ forall outcome, next Quiet outcome
  | CloneJson r => fun next =>
      stage = Quiet /\
      if retryable429 r then next (Noting r false) (jsonBody r)
      else next Quiet (jsonBody r)
  end next.

Fixpoint obeys {A : Type} (key : string) (stage : Stage) (p : Async A) : Prop :=
  match p with
  | Ret _ => stage = Quiet
  | Throw _ => stage = Quiet
  | Vis e k => allowed key stage e (fun stage' x => obeys key stage' (k x))
  end.

Definition task_obeys (t : Task) : Prop :=
  match t with
  | RequestTask request _ p => obeys (getEndpointKey request) Quiet p
  | ResponseTask request _ p => obeys (getEndpointKey request) Quiet p
  end.

(** The throttled entries of [σ] hold what [g] has on record. *)
Definition on_record (g : gmap string (Z * Z)) (σ : gmap string EndpointState)
    (k : string) : Prop :=
  forall st, σ !! k = Some st -> isThrottled st = true ->
    g !! k = Some (retryAfter st, lastRetryTime st).

(** What holds of the map at each stage of a hook for [key], at time [now],
    when [g] is the record after the signal. *)
Definition in_progress (g : gmap string (Z * Z)) (key : string) (now : Z)
    (stage : Stage) (σ : gmap string EndpointState) : Prop :=
  match stage with
  | Quiet => forall k, on_record g σ k
  | Noting r known =>
      g !! key = Some (getRetryAfterTime r, now)
      /\ (forall k, k <> key -> on_record g σ k)
      /\ (known = true -> is_Some (σ !! key))
  | Stamping =>
      (exists ra, g !! key = Some (ra, now)
                  /\ forall st, σ !! key = Some st -> retryAfter st = ra)
      /\ (forall k, k <> key -> on_record g σ k)
  | Sealing t =>
      t = now
      /\ (exists ra, g !! key = Some (ra, now)
                     /\ forall st, σ !! key = Some st -> retryAfter st = ra)
      /\ (forall k, k <> key -> on_record g σ k)
  end.

Definition invariant (s : System) : Prop :=
  (forall k, on_record (signals s) (store s) k)
  /\ (forall t, t ∈ pool s -> task_obeys t).

(** A segment keeps every flag from rising, except that of the key of a
    hook that is noting a signal. *)
Definition no_rise (key : string) (stage : Stage) (σ σ' : gmap string EndpointState) : Prop :=
  forall k0, stage = Quiet \/ k0 <> key -> throttled σ k0 = false -> throttled σ' k0 = false.

(** ** Well-formed inputs *)

(** A [Request] carries a method that is an HTTP token: one or more of the
    characters below, none of which is the colon. *)
Definition is_tchar (c : ascii) : bool :=
  let n := nat_of_ascii c in
  ((48 <=? n) && (n <=? 57) || (65 <=? n) && (n <=? 90) || (97 <=? n) && (n <=? 122)
   || (n =? 33) || (35 <=? n) && (n <=? 39) || (n =? 42) || (n =? 43) || (n =? 45)
   || (n =? 46) || (n =? 94) || (n =? 95) || (n =? 96) || (n =? 124) || (n =? 126))%nat.

Fixpoint all_tchar (s : string) : bool :=
  match s with
  | EmptyString => true
  | String c s' => is_tchar c && all_tchar s'
  end.

Definition is_token (s : string) : bool := truthy s && all_tchar s.

(** The decimal numeral of a natural number, without sign or padding. *)
Definition numeral (n : N) : string := NilZero.string_of_uint (N.to_uint n).

(** ** Sample inputs, after the test suite *)

Module Sample.

Definition subscribers : Request :=
  {| method := "GET";
     url := {| protocol := "https:"; host := "api.revenuecat.com";
               pathname := "/v1/subscribers"; search := ""; hash := "" |};
     reqBody := None |}.

Definition subscribers_query : Request :=
  {| method := "GET";
     url := {| protocol := "https:"; host := "api.revenuecat.com";
               pathname := "/v1/subscribers"; search := "?id=4"; hash := "" |};
     reqBody := None |}.

Definition subscribers_post : Request :=
  {| method := "POST";
     url := {| protocol := "https:"; host := "api.revenuecat.com";
               pathname := "/v1/subscribers"; search := ""; hash := "" |};
     reqBody := Some "{}" |}.

Definition products : Request :=
  {| method := "GET";
     url := {| protocol := "https:"; host := "api.revenuecat.com";
               pathname := "/v1/products"; search := ""; hash := "" |};
     reqBody := None |}.

Definition rate_limit_error (retryable : bool) : JSON :=
  JObject [("type", JString "rate_limit_error");
           ("message", JString "Rate limit exceeded");
           ("retryable", JBool retryable);
           ("doc_url", JString "https://errors.rev.cat/rate-limit-error");
           ("backoff_ms", JNumber 1000)].

(** A 429 with the given [Retry-After] value and a body that is not JSON. *)
Definition limited (retry_after : string) : Response :=
  {| status := 429; headers := [("Retry-After", retry_after)]; jsonBody := None |}.

Definition limited_retryable : Response :=
  {| status := 429; headers := [("Retry-After", "2")];
     jsonBody := Some (JObject [("retryable", JBool true)]) |}.

Definition limited_final : Response :=
  {| status := 429;
     headers := [("Retry-After", "1"); ("Content-Type", "application/json")];
     jsonBody := Some (rate_limit_error false) |}.

Definition limited_bare : Response :=
  {| status := 429; headers := []; jsonBody := None |}.

Definition success : Response :=
  {| status := 200; headers := []; jsonBody := None |}.

Definition prompt : nat -> nat := fun _ => O.

Definition succeeds : Env :=
  {| lag := prompt; transport := fun _ _ => inl success |}.

Definition always_limited : Env :=
  {| lag := prompt; transport := fun _ _ => inl (limited "1") |}.

Definition network_down : Env :=
  {| lag := prompt; transport := fun _ _ => inr "Network error" |}.

Definition start : World :=
  {| states := ∅; clock := 0; awaits := 0; sends := 0; trace := [] |}.

(** A world whose window for [GET /v1/subscribers] ended a second ago. *)
Definition elapsed : World :=
  {| states := {[ "GET:/v1/subscribers" :=
                  {| isThrottled := true; retryAfter := 2; queue := [];
                     lastRetryTime := 0; processing := false |} ]};
     clock := 3000; awaits := 0; sends := 0; trace := [] |}.

(** A hook is called with a 429 and [Retry-After: 1], and reads its
    body. *)
Definition first_signal : list Move :=
  [CallOnResponse subscribers (limited "1"); JsonSettles 0].

(** Then a pre-send hook for the same endpoint waits out the window; a
    second later both timers fire, in the order they were set: the first
    hook sends its retry, the pre-send hook clears the flag, and the retry
    is answered by a 429 with [Retry-After: 5]. *)
Definition cleared_then_limited : list Move :=
  first_signal ++
  [CallOnRequest subscribers; Tick 1000; TimerFires 0; TimerFires 1;
   FetchSettles 0 (inl (limited "5"))].

(** The system after a list of moves from [boot 0], when they can all be
    made. *)
Definition runs (ms : list Move) : bool :=
  match exec ms (boot 0) with Some _ => true | None => false end.

Definition after (ms : list Move) : System := default (boot 0) (exec ms (boot 0)).

End Sample.

(** ** Further definitions for the properties of the code beyond the claims *)

(** *** Header values *)

Definition is_digit (c : ascii) : bool :=
  match digit_value c with Some _ => true | None => false end.

Definition head_is_digit (s : string) : bool :=
  match s with String c _ => is_digit c | EmptyString => false end.

(** Whether a header value has, after white space and at most one sign, a
    decimal digit. *)
Definition starts_numeric (value : string) : bool :=
  match skip_white_space value with
  | String "-" rest => head_is_digit rest
  | String "+" rest => head_is_digit rest
  | rest => head_is_digit rest
  end.

(** *** The header as the specification reads it *)







(** *** What hooks never do *)

(** No queue is ever filled and no [processing] flag ever set. *)
Definition tidy (σ : gmap string EndpointState) : Prop :=
  forall k st, σ !! k = Some st -> queue st = [] /\ processing st = false.

Definition is_clear (key : string) {X : Type} (e : Eff X) : Prop :=
  match e with
  | SetIsThrottled k b => k = key /\ b = false
  | _ => False
  end.

(** On every path, the program clears the flag of [key] before it ends. *)
Fixpoint clears {A : Type} (key : string) (p : Async A) : Prop :=
  match p with
  | Vis e k => is_clear key e \/ forall x, clears key (k x)
  | _ => False
  end.

(** The program stores fresh entries only, and sets a throttled flag only
    if it is a post-receive hook ([post]), only that of [key], and only to
    clear it again before it ends. *)
Fixpoint careful {A : Type} (post : bool) (key : string) (p : Async A) : Prop :=
  match p with
  | Vis e k =>
      match e in Eff X return (X -> Prop) -> (X -> Prop) -> Prop with
      | SetIsThrottled k' b => fun ok cl =>
          (b = true -> post = true /\ k' = key /\ cl tt) /\ ok tt
      | StatesSet _ st => fun ok _ => st = freshState /\ ok tt
      | _ => fun ok _ => forall x, ok x
      end (fun x => careful post key (k x)) (fun x => clears key (k x))
  | _ => True
  end.

Definition task_careful (t : Task) : Prop :=
  match t with
  | RequestTask request _ p => careful false (getEndpointKey request) p
  | ResponseTask request _ p => careful true (getEndpointKey request) p
  end.

(** A post-receive hook for [key] that will clear its flag. *)
Definition holds_flag (key : string) (t : Task) : Prop :=
  match t with
  | RequestTask _ _ _ => False
  | ResponseTask request _ p => getEndpointKey request = key /\ clears key p
  end.

Definition settled {A : Type} (p : Async A) : bool :=
  match p with Vis _ _ => false | _ => true end.

Definition task_settled (t : Task) : bool :=
  match t with
  | RequestTask _ _ p => settled p
  | ResponseTask _ _ p => settled p
  end.


(** The flags that are set are held, the entries are tidy and the tasks
    careful. *)
Definition flags_held (s : System) : Prop :=
  (forall t, t ∈ pool s -> task_careful t)
  /\ tidy (store s)
  /\ forall k, throttled (store s) k = true ->
       exists i t, pool s !! i = Some t /\ holds_flag k t.

(** What a program resumes with keeps what was promised of it. *)
Definition continues (pick : Z -> forall A : Type, Async A -> option (Async A)) : Prop :=
  forall (since : Z) (A : Type) (p p1 : Async A),
    pick since A p = Some p1 ->
    (forall post key, careful post key p -> careful post key p1)
    /\ (forall key, clears key p -> clears key p1).


(** *** A pre-send hook during a retry *)

(** The timer a program waits on. *)
Definition awaited_timer {A : Type} (p : Async A) : option Z :=
  match p with
  | Vis e _ => match e with Delay ms => Some ms | _ => None end
  | _ => None
  end.

(** The map once a hook has recorded a signal of [seconds] at [now]. *)
Definition signalled (key : string) (seconds now : Z) (σ : gmap string EndpointState)
    : gmap string EndpointState :=
  alter (with_lastRetryTime now) key
    (alter (with_retryAfter seconds) key
       (alter (with_isThrottled true) key (ensure key σ))).


(** *** The two revisions *)

(** The transport never answers [request] with a 429 that says it must not
    be retried. *)
Definition never_final (env : Env) (request : Request) : Prop :=
  forall j r, transport env j request = inl r -> status r = 429 ->
    retryable_body (jsonBody r) = true.


(** *** Further sample inputs *)

Module Cases.

(** A world in which the window of [GET /v1/subscribers] is open for
    another 1500 ms. *)
Definition waiting : World :=
  {| states := {[ "GET:/v1/subscribers" :=
                  {| isThrottled := true; retryAfter := 2; queue := [];
                     lastRetryTime := 0; processing := false |} ]};
     clock := 500; awaits := 0; sends := 0; trace := [] |}.

(** A transport that answers the first retry with a 429 that must not be
    retried. *)
Definition refuses : Env :=
  {| lag := Sample.prompt; transport := fun _ _ => inl Sample.limited_final |}.

(** A transport whose 429s ask for 3, 4 and 5 seconds. *)
Definition escalating : Env :=
  {| lag := Sample.prompt;
     transport := fun j _ =>
       match j with
       | O => inl (Sample.limited "3")
       | S O => inl (Sample.limited "4")
       | _ => inl (Sample.limited "5")
       end |}.

(** A [Retry-After] that is a date, and one with a unit. *)
Definition dated : Response :=
  {| status := 429; headers := [("Retry-After", "Wed, 21 Oct 2015 07:28:00 GMT")];
     jsonBody := None |}.

Definition with_unit : Response :=
  {| status := 429; headers := [("Retry-After", "30 seconds")]; jsonBody := None |}.



End Cases.

(** * Properties *)

(** ** [parseInt] and the [Retry-After] header *)

Lemma leading_digits_acc (u : Decimal.uint) (p : positive) :
  leading_digits (NilEmpty.string_of_uint u) (Some (Z.pos p))
  = Some (Z.pos (Pos.of_uint_acc u p)).
Proof.
  revert p. induction u; intros p; simpl; try reflexivity;
    match goal with
    | |- leading_digits _ (Some ?z) = Some (Z.pos (Pos.of_uint_acc _ ?q)) =>
        replace z with (Z.pos q) by lia
    end; apply IHu.
Qed.

Lemma leading_digits_zero (u : Decimal.uint) :
  leading_digits (NilEmpty.string_of_uint u) (Some 0) = Some (Z.of_N (Pos.of_uint u)).
Proof.
  induction u; simpl; try reflexivity; try assumption;
    change (Some (Z.pos ?q)) with (Some (Z.pos q)); apply leading_digits_acc.
Qed.

Lemma leading_digits_none (u : Decimal.uint) :
  u <> Decimal.Nil ->
  leading_digits (NilEmpty.string_of_uint u) None = Some (Z.of_N (Pos.of_uint u)).
Proof.
  destruct u; intros Hu; try congruence; simpl;
    first [ apply leading_digits_zero | apply leading_digits_acc ].
Qed.

Lemma to_uint_not_nil (n : N) : N.to_uint n <> Decimal.Nil.
Proof.
  destruct n as [|p]; [discriminate|].
  intros H. pose proof (DecimalN.Unsigned.of_to (N.pos p)) as Hp.
  rewrite H in Hp. discriminate.
Qed.

Lemma numeral_shape (n : N) :
  exists c s, numeral n = String c s /\ is_white_space c = false
              /\ c <> "-"%char /\ c <> "+"%char /\ is_Some (digit_value c).
Proof.
  unfold numeral, NilZero.string_of_uint.
  pose proof (to_uint_not_nil n) as Hn.
  destruct (N.to_uint n); try congruence; simpl; eexists _, _;
    (split; [reflexivity|]); repeat split; try discriminate; eexists; reflexivity.
Qed.

Lemma parseInt10_numeral (n : N) : parseInt10 (numeral n) = Some (Z.of_N n).
Proof.
  destruct (numeral_shape n) as (c & s & Hs & Hw & Hm & Hp & Hd).
  assert (Hl : leading_digits (numeral n) None = Some (Z.of_N n)).
  { unfold numeral, NilZero.string_of_uint.
    pose proof (to_uint_not_nil n) as Hn.
    transitivity (leading_digits (NilEmpty.string_of_uint (N.to_uint n)) None).
    - destruct (N.to_uint n); congruence.
    - rewrite leading_digits_none by assumption.
      change (Pos.of_uint (N.to_uint n)) with (N.of_uint (N.to_uint n)).
      by rewrite DecimalN.Unsigned.of_to. }
  unfold parseInt10. rewrite Hs in *. simpl. rewrite Hw.
  destruct c as [[] [] [] [] [] [] [] []]; try assumption; congruence.
Qed.

Lemma numeral_truthy (n : N) : truthy (numeral n) = true.
Proof. destruct (numeral_shape n) as (c & s & -> & _); reflexivity. Qed.

Lemma leading_digits_nonneg (s : string) (acc : option Z) (n : Z) :
  0 <= default 0 acc -> leading_digits s acc = Some n -> 0 <= n.
Proof.
  revert acc. induction s as [|c s IH]; intros acc Hacc; simpl.
  - intros ->. assumption.
  - destruct (digit_value c) as [d|] eqn:Hd.
    + apply IH. simpl. unfold digit_value in Hd.
      destruct (_ && _)%bool; [|discriminate]. injection Hd as <-. lia.
    + intros ->. assumption.
Qed.

Lemma skip_white_space_head (s : string) (c : ascii) (rest : string) :
  skip_white_space s = String c rest -> is_white_space c = false.
Proof.
  induction s as [|a s IH]; simpl; [discriminate|].
  destruct (is_white_space a) eqn:Ha; [assumption|].
  intros [= <- <-]. assumption.
Qed.

(** Only a minus sign in front of the digits makes [parseInt] negative. *)
Lemma parseInt10_nonneg (s : string) (n : Z) :
  (forall rest, skip_white_space s <> String "-" rest) ->
  parseInt10 s = Some n -> 0 <= n.
Proof.
  unfold parseInt10. intros Hminus.
  destruct (skip_white_space s) as [|c rest] eqn:Hs; [discriminate|].
  destruct (decide (c = "-"%char)) as [->|Hc]; [by destruct (Hminus rest)|].
  intros H.
  assert (Hd : leading_digits rest None = Some n
               \/ leading_digits (String c rest) None = Some n).
  { destruct c as [[] [] [] [] [] [] [] []]; auto; congruence. }
  destruct Hd as [Hd|Hd]; eapply leading_digits_nonneg; try exact Hd; simpl; lia.
Qed.

(** *** What [parseInt] reads and what it ignores *)

Lemma leading_digits_Some (s : string) (a : Z) : is_Some (leading_digits s (Some a)).
Proof.
  revert a. induction s as [|c s IH]; intros a; cbn; [by eexists|].
  destruct (digit_value c); [apply IH|by eexists].
Qed.

Lemma leading_digits_head (s : string) :
  leading_digits s None = None <-> head_is_digit s = false.
Proof.
  destruct s as [|c s]; cbn; [done|]. unfold is_digit.
  destruct (digit_value c) as [d|]; [|done].
  destruct (leading_digits_Some s (10 * 0 + d)) as [n Hn]. cbn in *. rewrite Hn. done.
Qed.

Lemma parseInt10_NaN (value : string) :
  parseInt10 value = None <-> starts_numeric value = false.
Proof.
  unfold parseInt10, starts_numeric.
  destruct (skip_white_space value) as [|c rest]; [done|].
  assert (Hopp : forall o : option Z, Z.opp <$> o = None <-> o = None) by (by intros [?|]).
  destruct c as [[] [] [] [] [] [] [] []];
    rewrite ?Hopp; apply leading_digits_head.
Qed.

Lemma leading_digits_suffix (s suffix : string) (acc : option Z) :
  head_is_digit suffix = false ->
  leading_digits (s ++ suffix) acc = leading_digits s acc.
Proof.
  intros Hsuf. revert acc. induction s as [|c s IH]; intros acc.
  - change ("" ++ suffix) with suffix. destruct suffix as [|c suffix]; [done|].
    cbn in *. unfold is_digit in Hsuf. by destruct (digit_value c).
  - change (String c s ++ suffix) with (String c (s ++ suffix)). cbn.
    destruct (digit_value c); [apply IH|done].
Qed.

Lemma skip_white_space_suffix (s suffix : string) (c : ascii) (rest : string) :
  skip_white_space s = String c rest ->
  skip_white_space (s ++ suffix) = String c (rest ++ suffix).
Proof.
  induction s as [|a s IH]; [done|].
  change (String a s ++ suffix) with (String a (s ++ suffix)). cbn.
  destruct (is_white_space a); [exact IH|]. by intros [= -> ->].
Qed.

Lemma parseInt10_suffix (value suffix : string) (n : Z) :
  head_is_digit suffix = false ->
  parseInt10 value = Some n -> parseInt10 (value ++ suffix) = Some n.
Proof.
  intros Hsuf. unfold parseInt10.
  destruct (skip_white_space value) as [|c rest] eqn:Hskip; [done|].
  rewrite (skip_white_space_suffix _ suffix _ _ Hskip).
  destruct c as [[] [] [] [] [] [] [] []];
    rewrite ?leading_digits_suffix by done; try done.
  all: change (String ?a rest ++ suffix) with (String a (rest ++ suffix)).
  all: try (change (String ?a (rest ++ suffix)) with (String a rest ++ suffix);
            by rewrite leading_digits_suffix).
Qed.

(** *** Reading a decimal integer off the front of a value *)












(** ** Running the hooks *)

Lemma run_bind {A B : Type} (env : Env) (m : Async A) (f : A -> Async B) (w : World) :
  run env (m ≫= f) w =
  match run env m w with
  | (Resolved a, w') => run env (f a) w'
  | (Rejected e, w') => (Rejected e, w')
  end.
Proof.
  revert w. induction m as [a|e|X e k IH]; intros w; try reflexivity.
  change (run env (Vis e k ≫= f) w) with
    (let '(x, w') := handle env e w in run env (k x ≫= f) w').
  simpl. destruct (handle env e w) as [x w']. apply IH.
Qed.

(** The two semantics agree on the operations that do not suspend. *)
Lemma handle_sync_step {X : Type} (env : Env) (e : Eff X) (w : World) (x : X)
    (σ' : gmap string EndpointState) :
  sync_step e (states w) (clock w) = Some (x, σ') ->
  (handle env e w).1 = x /\ states (handle env e w).2 = σ'
  /\ clock (handle env e w).2 = clock w /\ awaits (handle env e w).2 = awaits w
  /\ sends (handle env e w).2 = sends w.
Proof. destruct e; cbn; intros [= <- <-] || intros [=]; repeat split. Qed.

Lemma ensure_present (key : string) (σ : gmap string EndpointState) :
  is_Some (ensure key σ !! key).
Proof.
  unfold ensure. destruct (σ !! key) eqn:H; [by rewrite H|].
  rewrite lookup_insert_eq. by eexists.
Qed.

Lemma ensure_other (key key' : string) (σ : gmap string EndpointState) :
  key <> key' -> ensure key σ !! key' = σ !! key'.
Proof.
  intros Hne. unfold ensure. destruct (σ !! key); [done|]. by rewrite lookup_insert_ne.
Qed.

Lemma throttled_alter (b : bool) (key : string) (σ : gmap string EndpointState) :
  is_Some (σ !! key) -> throttled (alter (with_isThrottled b) key σ) key = b.
Proof.
  intros [st Hst]. unfold throttled. rewrite lookup_alter_eq, Hst. reflexivity.
Qed.

Lemma throttled_alter_false (key key' : string) (σ : gmap string EndpointState) :
  throttled σ key' = false -> throttled (alter (with_isThrottled false) key σ) key' = false.
Proof.
  unfold throttled. destruct (decide (key = key')) as [->|Hne].
  - rewrite lookup_alter_eq. by destruct (σ !! key').
  - by rewrite lookup_alter_ne.
Qed.

Lemma run_waitForThrottle (env : Env) (request : Request) (w : World) :
  run env (waitForThrottle request) w = (Resolved (), waited env request w).
Proof.
  unfold waitForThrottle, waited. cbn.
  destruct (states w !! getEndpointKey request) as [st|] eqn:Hst; cbn.
  - rewrite Hst. cbn. destruct (isThrottled st); cbn; [|reflexivity].
    destruct (0 <? _); reflexivity.
  - rewrite lookup_insert_eq. reflexivity.
Qed.

Lemma run_warnIfQueueTooLarge (env : Env) (request : Request) (w : World) :
  run env (warnIfQueueTooLarge request) w = (Resolved (), warned request w).
Proof.
  unfold warnIfQueueTooLarge, getQueueSize, warned, queue_size. cbn.
  destruct (maxQueueSize <=? _); reflexivity.
Qed.

Lemma run_onRequest (env : Env) (request : Request) (w : World) :
  run env (onRequest request) w = (Resolved None, warned request (waited env request w)).
Proof.
  unfold onRequest. rewrite run_bind, run_waitForThrottle, run_bind,
    run_warnIfQueueTooLarge. reflexivity.
Qed.

Lemma warned_facts (request : Request) (w : World) :
  states (warned request w) = states w /\ clock (warned request w) = clock w
  /\ awaits (warned request w) = awaits w /\ sends (warned request w) = sends w
  /\ delays (trace (warned request w)) = delays (trace w)
  /\ fetches (trace (warned request w)) = fetches (trace w).
Proof.
  unfold warned. destruct (maxQueueSize <=? _); cbn; repeat split.
  - unfold delays. rewrite filter_app. cbn. by rewrite app_nil_r.
  - unfold fetches. rewrite filter_app. cbn. by rewrite app_nil_r.
Qed.

Lemma run_handleResponse_retryable (env : Env) (request : Request) (response : Response)
    (w : World) :
  retryable429 response = true ->
  run env (handleResponse request response) w =
  run env (retryLoop maxRetries request (getEndpointKey request)
             (getRetryAfterTime response) response) (armed env request response w).
Proof.
  unfold retryable429. intros [Hs Hr]%andb_true_iff.
  unfold handleResponse. rewrite Hs. cbn [negb].
  unfold isRetryable. cbn -[retryLoop maxRetries]. rewrite Hr. cbn -[retryLoop maxRetries].
  unfold armed, ensure. cbn -[retryLoop maxRetries].
  destruct (states w !! getEndpointKey request) as [st|] eqn:Hst; cbn -[retryLoop maxRetries].
  - rewrite Hst. reflexivity.
  - rewrite lookup_insert_eq. reflexivity.
Qed.

Lemma run_retryLoop_O (env : Env) request key ra last (w : World) :
  run env (retryLoop 0 request key ra last) w = (Resolved last, cleared key w).
Proof. reflexivity. Qed.

Lemma run_retryLoop_S (env : Env) (n : nat) request key ra last (w : World) :
  run env (retryLoop (S n) request key ra last) w =
  let w2 := after_fetch env request (after_delay env (ra * 1000) w) in
  match transport env (sends w) request with
  | inr error => (Rejected error, cleared key w2)
  | inl r =>
      if negb (status r =? 429) then (Resolved r, cleared key w2)
      else if negb (retryable_body (jsonBody r))
           then (Resolved r, cleared key (suspend env 0 w2))
           else run env (retryLoop n request key (getRetryAfterTime r) r)
                  (refreshed env key r w2)
  end.
Proof.
  cbn. destruct (transport env (sends w) request) as [r|error]; cbn; [|reflexivity].
  destruct (status r =? 429); cbn; [|reflexivity].
  destruct (retryable_body (jsonBody r)); cbn; reflexivity.
Qed.

Lemma timer_floor_nonneg (ms : Z) : 0 <= timer_floor ms.
Proof.
  unfold timer_floor. destruct (0 <=? ms) eqn:H; cbn; [|lia].
  destruct (ms <=? 2147483647); lia.
Qed.

Lemma run_onResponse (env : Env) (request : Request) (response : Response) (w : World) :
  status response = 429 ->
  run env (onResponse request response) w =
  match run env (handleResponse request response) w with
  | (Resolved r, w') => (Resolved (Some r), w')
  | (Rejected e, w') => (Rejected e, w')
  end.
Proof.
  intros Hs. unfold onResponse. rewrite Hs. cbn [Z.eqb Pos.eqb].
  rewrite run_bind. destruct (run env (handleResponse request response) w) as [[r|e] w'];
    reflexivity.
Qed.

Lemma retryable429_status (r : Response) : retryable429 r = true -> status r = 429.
Proof. unfold retryable429. intros [H _]%andb_true_iff. lia. Qed.

Lemma retryable429_body (r : Response) :
  retryable429 r = true -> retryable_body (jsonBody r) = true.
Proof. unfold retryable429. by intros [_ H]%andb_true_iff. Qed.

Lemma still_limited_shift (env : Env) (request : Request) (first i : nat) :
  still_limited env request first (S i) -> still_limited env request (S first) i.
Proof.
  intros H j Hj. destruct (H (S j)) as (r & Hr & Hr'); [lia|].
  exists r. split; [|assumption]. rewrite <- Hr. f_equal. lia.
Qed.

Lemma armed_facts (env : Env) (request : Request) (response : Response) (w : World) :
  is_Some (states (armed env request response w) !! getEndpointKey request)
  /\ sends (armed env request response w) = sends w
  /\ trace (armed env request response w) = trace w
  /\ clock w <= clock (armed env request response w).
Proof.
  unfold armed. cbn. repeat split; [|lia].
  rewrite !lookup_alter_eq.
  destruct (ensure_present (getEndpointKey request) (states w)) as [st ->].
  by eexists.
Qed.

(** [i] turns of the loop that all meet a retryable 429. *)
Lemma loop_turns (env : Env) (request : Request) (key : string) (i n : nat) :
  forall (ra : Z) (last : Response) (w : World),
  still_limited env request (sends w) i ->
  is_Some (states w !! key) ->
  exists ra' last' w',
    run env (retryLoop (i + n) request key ra last) w
    = run env (retryLoop n request key ra' last') w'
    /\ sends w' = (sends w + i)%nat
    /\ is_Some (states w' !! key)
    /\ clock w <= clock w'
    /\ (exists evs, trace w' = (trace w ++ evs)%list)
    /\ match i with
       | O => last' = last /\ ra' = ra /\ w' = w
       | S i' => transport env (sends w + i')%nat request = inl last'
                 /\ ra' = getRetryAfterTime last'
       end.
Proof.
  induction i as [|i IH]; intros ra last w Hlim Hkey.
  - exists ra, last, w. repeat split; try done; try lia.
    exists []. by rewrite app_nil_r.
  - destruct (Hlim 0%nat) as (r & Hr & Hr429); [lia|].
    rewrite Nat.add_0_r in Hr.
    change (S i + n)%nat with (S (i + n)). rewrite run_retryLoop_S. cbn zeta.
    rewrite Hr, (retryable429_status r Hr429). cbn [Z.eqb Pos.eqb negb].
    rewrite (retryable429_body r Hr429). cbn [negb].
    set (w1 := refreshed env key r _).
    assert (Hs1 : sends w1 = S (sends w)) by reflexivity.
    destruct (IH (getRetryAfterTime r) r w1) as (ra' & last' & w' & Hrun & Hs & Hk & Hc & He & Hl).
    { rewrite Hs1. by apply still_limited_shift. }
    { subst w1. unfold refreshed. cbn. rewrite !lookup_alter_eq.
      destruct Hkey as [st ->]. by eexists. }
    exists ra', last', w'. split; [exact Hrun|].
    split; [rewrite Hs, Hs1; lia|]. split; [exact Hk|].
    split.
    { etrans; [|exact Hc]. subst w1. unfold refreshed, after_fetch, after_delay.
      cbn. pose proof (timer_floor_nonneg (ra * 1000)). lia. }
    split.
    { destruct He as [evs He]. rewrite He. subst w1. cbn.
      eexists. rewrite <- !app_assoc. reflexivity. }
    destruct i as [|i'].
    + destruct Hl as (-> & -> & ->). rewrite Nat.add_0_r. by split.
    + destruct Hl as [Hl ->]. split; [|reflexivity].
      rewrite <- Hl, Hs1. f_equal. lia.
Qed.

(** After [i] such turns, a send that fails or is answered by another
    status ends the loop. *)
Lemma loop_decided (env : Env) (request : Request) (key : string) (i n : nat)
    (ra : Z) (last : Response) (w : World) (outcome : Response + Error) :
  still_limited env request (sends w) i ->
  is_Some (states w !! key) ->
  transport env (sends w + i)%nat request = outcome ->
  match outcome with inl r => status r <> 429 | inr _ => True end ->
  exists ra' w1,
    run env (retryLoop (i + S n) request key ra last) w
    = (match outcome with inl r => Resolved r | inr e => Rejected e end,
       cleared key (after_fetch env request (after_delay env (ra' * 1000) w1)))
    /\ sends w1 = (sends w + i)%nat
    /\ is_Some (states w1 !! key)
    /\ clock w <= clock w1
    /\ (exists evs, trace w1 = (trace w ++ evs)%list)
    /\ (i = 0%nat -> w1 = w /\ ra' = ra).
Proof.
  intros Hlim Hkey Hout Hdec.
  destruct (loop_turns env request key i (S n) ra last w Hlim Hkey)
    as (ra' & last' & w1 & Hrun & Hs & Hk & Hc & He & Hl).
  exists ra', w1. rewrite Hrun, run_retryLoop_S. cbn zeta. rewrite Hs, Hout.
  split.
  { destruct outcome as [r|e]; [|reflexivity].
    destruct (Z.eqb_spec (status r) 429); [done|reflexivity]. }
  split; [reflexivity|]. split; [exact Hk|]. split; [exact Hc|]. split; [exact He|].
  intros ->. destruct Hl as (_ & -> & ->). by split.
Qed.

Lemma loop_sends_bound (env : Env) (request : Request) (key : string) (n : nat) :
  forall (ra : Z) (last : Response) (w : World),
  (sends (snd (run env (retryLoop n request key ra last) w)) <= sends w + n)%nat.
Proof.
  induction n as [|n IH]; intros ra last w.
  - cbn. lia.
  - rewrite run_retryLoop_S. cbn zeta.
    destruct (transport env (sends w) request) as [r|e]; [|cbn; lia].
    destruct (negb (status r =? 429)); [cbn; lia|].
    destruct (negb (retryable_body (jsonBody r))); [cbn; lia|].
    etrans; [apply IH|]. cbn. lia.
Qed.

(** The loop rejects only with the failure of one of its sends. *)
Lemma loop_rejects (env : Env) (request : Request) (key : string) (n : nat) :
  forall (ra : Z) (last : Response) (w : World) (e : Error),
  fst (run env (retryLoop n request key ra last) w) = Rejected e ->
  exists j, (j < n)%nat /\ transport env (sends w + j)%nat request = inr e.
Proof.
  induction n as [|n IH]; intros ra last w e.
  - cbn. discriminate.
  - rewrite run_retryLoop_S. cbn zeta.
    destruct (transport env (sends w) request) as [r|e'] eqn:Hout.
    + destruct (negb (status r =? 429)); [cbn; discriminate|].
      destruct (negb (retryable_body (jsonBody r))); [cbn; discriminate|].
      intros H. apply IH in H as (j & Hj & Hje). exists (S j). split; [lia|].
      rewrite <- Hje. cbn. f_equal. lia.
    + cbn. intros [= ->]. exists 0%nat. split; [lia|]. by rewrite Nat.add_0_r.
Qed.

(** ** The post-receive hook *)

(** C1: when a retryable 429 is followed, within the three retries, by a
    send that is answered with another status, [handleResponse] (and with
    it the post-receive hook) returns that answer, has cleared the
    endpoint's throttled flag and has sent once per turn; its last act is
    that send, issued with empty options.  When the first retry is so
    answered, the run is one wait of the [Retry-After] seconds and one
    send: with [Retry-After: 2], a wait of 2000 ms, and the hook returns at
    least 2000 ms after it was called. *)
Theorem retry_success_returns_retried_response
    (env : Env) (w : World) (request : Request) (response : Response)
    (i : nat) (retryResponse : Response)
    (H429 : retryable429 response = true)
    (Hi : (i < maxRetries)%nat)
    (Hbefore : still_limited env request (sends w) i)
    (Hsend : transport env (sends w + i)%nat request = inl retryResponse)
    (Hok : status retryResponse <> 429) :
  exists w',
    run env (handleResponse request response) w = (Resolved retryResponse, w')
    /\ run env (onResponse request response) w = (Resolved (Some retryResponse), w')
    /\ throttled (states w') (getEndpointKey request) = false
    /\ sends w' = (sends w + S i)%nat
    /\ (exists evs ms, trace w' = (trace w ++ evs ++ [EvDelay ms; EvFetch request []])%list)
    /\ (i = 0%nat ->
        trace w' = (trace w ++ [EvDelay (getRetryAfterTime response * 1000);
                                EvFetch request []])%list
        /\ (headers_get "Retry-After" (headers response) = Some "2" ->
            trace w' = (trace w ++ [EvDelay 2000; EvFetch request []])%list
            /\ clock w + 2000 <= clock w')).
Proof.
  pose proof (armed_facts env request response w) as (Hkey & Hs0 & Ht0 & Hc0).
  rewrite run_onResponse by (by apply retryable429_status).
  rewrite run_handleResponse_retryable by assumption.
  replace maxRetries with (i + S (maxRetries - S i))%nat by lia.
  set (w0 := armed env request response w) in *.
  edestruct (loop_decided env request (getEndpointKey request) i (maxRetries - S i)
               (getRetryAfterTime response) response w0 (inl retryResponse))
    as (ra' & w1 & Hrun & Hs & Hk & Hc & [evs He] & Hfirst);
    [by rewrite Hs0|assumption|by rewrite Hs0|assumption|].
  rewrite Hrun. eexists. split; [reflexivity|]. split; [reflexivity|].
  split. { cbn. by apply throttled_alter. }
  split. { cbn. rewrite Hs, Hs0. lia. }
  split. { exists evs, (ra' * 1000). cbn. rewrite He, Ht0, <- !app_assoc. reflexivity. }
  intros ->. destruct Hfirst as [-> ->]; [reflexivity|].
  split. { cbn. rewrite ?Ht0, <- ?app_assoc. reflexivity. }
  intros Hh. assert (Hra : getRetryAfterTime response = 2).
  { unfold getRetryAfterTime. rewrite Hh. reflexivity. }
  rewrite Hra. split. { cbn. rewrite ?Ht0, <- ?app_assoc. reflexivity. }
  cbn. change (timer_floor (2 * 1000)) with 2000. lia.
Qed.

(** C2: the loop sends at most three times whatever the transport answers;
    when its three sends are all answered by retryable 429s,
    [handleResponse] returns the last of them as a value, with the
    throttled flag cleared; and it rejects only with the failure of one of
    its sends, never for having used up its retries. *)
Theorem retry_ceiling_returns_last_429
    (env : Env) (w : World) (request : Request) (response : Response)
    (H429 : retryable429 response = true) :
  (sends (snd (run env (handleResponse request response) w)) <= sends w + 3)%nat
  /\ (still_limited env request (sends w) 3 ->
      exists last w',
        transport env (sends w + 2)%nat request = inl last
        /\ status last = 429
        /\ run env (handleResponse request response) w = (Resolved last, w')
        /\ run env (onResponse request response) w = (Resolved (Some last), w')
        /\ throttled (states w') (getEndpointKey request) = false
        /\ sends w' = (sends w + 3)%nat)
  /\ (forall e, fst (run env (handleResponse request response) w) = Rejected e ->
      exists j, (j < 3)%nat /\ transport env (sends w + j)%nat request = inr e).
Proof.
  pose proof (armed_facts env request response w) as (Hkey & Hs0 & Ht0 & Hc0).
  rewrite run_onResponse by (by apply retryable429_status).
  rewrite run_handleResponse_retryable by assumption.
  set (w0 := armed env request response w) in *.
  split; [|split].
  - rewrite <- Hs0. apply loop_sends_bound.
  - intros Hlim.
    destruct (loop_turns env request (getEndpointKey request) 3 0
                (getRetryAfterTime response) response w0)
      as (ra' & last' & w1 & Hrun & Hs & Hk & Hc & He & Hl & _);
      [by rewrite Hs0|assumption|].
    destruct (Hlim 2%nat) as (r & Hr & Hr429); [lia|].
    rewrite Hs0 in Hl. exists last'. eexists. split; [exact Hl|].
    split. { rewrite Hl in Hr. injection Hr as ->. by apply retryable429_status. }
    change maxRetries with (3 + 0)%nat. rewrite Hrun, run_retryLoop_O.
    split; [reflexivity|]. split; [reflexivity|].
    split. { cbn. by apply throttled_alter. }
    cbn. rewrite Hs, Hs0. reflexivity.
  - intros e He. apply loop_rejects in He as (j & Hj & He).
    exists j. split; [exact Hj|]. by rewrite <- Hs0.
Qed.

(** C5: a 429 whose body holds [retryable: false] is returned as it is: no
    timer is started, nothing is sent, and no endpoint state is created or
    changed. *)
Theorem non_retryable_429_returned_unchanged
    (env : Env) (w : World) (request : Request) (response : Response)
    (props : list (string * JSON))
    (H429 : status response = 429)
    (Hbody : jsonBody response = Some (JObject props))
    (Hfalse : get_prop "retryable" props = Some (JBool false)) :
  exists w',
    run env (handleResponse request response) w = (Resolved response, w')
    /\ run env (onResponse request response) w = (Resolved (Some response), w')
    /\ states w' = states w
    /\ trace w' = trace w
    /\ sends w' = sends w.
Proof.
  rewrite run_onResponse by assumption.
  unfold handleResponse, isRetryable. rewrite H429. cbn. rewrite Hbody. cbn.
  rewrite Hfalse. cbn. eexists. repeat split.
Qed.

(** The earlier revision does not look at the body: it waits and sends
    again after a 429 whose body holds [retryable: false]. *)
Example earlier_revision_retries_regardless :
  let '(result, w') :=
    run Sample.succeeds (Earlier.handleResponse Sample.subscribers Sample.limited_final)
      Sample.start in
  result = Resolved Sample.success
  /\ trace w' = [EvDelay 1000; EvFetch Sample.subscribers []].
Proof. split; reflexivity. Qed.

(** C6: when a send of the loop fails, [handleResponse] rejects with that
    failure, the throttled flag is cleared, and the failed send is its last
    act: no wait and no send follows. *)
Theorem transport_failure_propagates
    (env : Env) (w : World) (request : Request) (response : Response)
    (i : nat) (error : Error)
    (H429 : retryable429 response = true)
    (Hi : (i < maxRetries)%nat)
    (Hbefore : still_limited env request (sends w) i)
    (Hfail : transport env (sends w + i)%nat request = inr error) :
  exists w',
    run env (handleResponse request response) w = (Rejected error, w')
    /\ run env (onResponse request response) w = (Rejected error, w')
    /\ throttled (states w') (getEndpointKey request) = false
    /\ sends w' = (sends w + S i)%nat
    /\ (exists evs ms, trace w' = (trace w ++ evs ++ [EvDelay ms; EvFetch request []])%list).
Proof.
  pose proof (armed_facts env request response w) as (Hkey & Hs0 & Ht0 & Hc0).
  rewrite run_onResponse by (by apply retryable429_status).
  rewrite run_handleResponse_retryable by assumption.
  replace maxRetries with (i + S (maxRetries - S i))%nat by lia.
  set (w0 := armed env request response w) in *.
  edestruct (loop_decided env request (getEndpointKey request) i (maxRetries - S i)
               (getRetryAfterTime response) response w0 (inr error))
    as (ra' & w1 & Hrun & Hs & Hk & Hc & [evs He] & Hfirst);
    [by rewrite Hs0|assumption|by rewrite Hs0|exact I|].
  rewrite Hrun. eexists. split; [reflexivity|]. split; [reflexivity|].
  split. { cbn. by apply throttled_alter. }
  split. { cbn. rewrite Hs, Hs0. lia. }
  exists evs, (ra' * 1000). cbn. rewrite He, Ht0, <- !app_assoc. reflexivity.
Qed.

Lemma retry_success_witness :
  retryable429 Sample.limited_retryable = true
  /\ headers_get "Retry-After" (headers Sample.limited_retryable) = Some "2"
  /\ exists w',
       run Sample.succeeds (onResponse Sample.subscribers Sample.limited_retryable)
         Sample.start = (Resolved (Some Sample.success), w')
       /\ trace w' = [EvDelay 2000; EvFetch Sample.subscribers []]
       /\ 2000 <= clock w'.
Proof.
  split; [reflexivity|]. split; [reflexivity|].
  destruct (retry_success_returns_retried_response Sample.succeeds Sample.start
              Sample.subscribers Sample.limited_retryable 0 Sample.success)
    as (w' & _ & Hrun & _ & _ & _ & Hfirst).
  - reflexivity.
  - unfold maxRetries. lia.
  - intros j Hj. lia.
  - reflexivity.
  - cbn. lia.
  - destruct (Hfirst eq_refl) as [_ Htwo]. destruct (Htwo eq_refl) as [Ht Hc].
    exists w'. split; [exact Hrun|]. split; [exact Ht|exact Hc].
Defined.

Lemma retry_ceiling_witness :
  retryable429 (Sample.limited "1") = true
  /\ exists w',
       run Sample.always_limited (onResponse Sample.subscribers (Sample.limited "1"))
         Sample.start = (Resolved (Some (Sample.limited "1")), w')
       /\ sends w' = 3%nat.
Proof.
  split; [reflexivity|].
  destruct (retry_ceiling_returns_last_429 Sample.always_limited Sample.start
              Sample.subscribers (Sample.limited "1") eq_refl) as (_ & Hall & _).
  destruct Hall as (last & w' & Hlast & _ & _ & Hrun & _ & Hsends).
  - intros j Hj. exists (Sample.limited "1"). split; reflexivity.
  - injection Hlast as <-. exists w'. split; [exact Hrun|exact Hsends].
Defined.

Lemma non_retryable_witness :
  status Sample.limited_final = 429
  /\ exists w',
       run Sample.succeeds (onResponse Sample.subscribers Sample.limited_final)
         Sample.start = (Resolved (Some Sample.limited_final), w')
       /\ states w' = ∅ /\ trace w' = [] /\ sends w' = 0%nat.
Proof.
  split; [reflexivity|].
  destruct (non_retryable_429_returned_unchanged Sample.succeeds Sample.start
              Sample.subscribers Sample.limited_final _ eq_refl eq_refl eq_refl)
    as (w' & _ & Hrun & Hst & Htr & Hs).
  exists w'. split; [exact Hrun|]. split; [exact Hst|]. split; [exact Htr|exact Hs].
Defined.

Lemma transport_failure_witness :
  retryable429 (Sample.limited "1") = true
  /\ exists w',
       run Sample.network_down (onResponse Sample.subscribers (Sample.limited "1"))
         Sample.start = (Rejected "Network error", w')
       /\ throttled (states w') "GET:/v1/subscribers" = false
       /\ sends w' = 1%nat.
Proof.
  split; [reflexivity|].
  destruct (transport_failure_propagates Sample.network_down Sample.start
              Sample.subscribers (Sample.limited "1") 0 "Network error")
    as (w' & _ & Hrun & Hthr & Hs & _).
  - reflexivity.
  - unfold maxRetries. lia.
  - intros j Hj. lia.
  - reflexivity.
  - exists w'. split; [exact Hrun|]. split; [exact Hthr|exact Hs].
Defined.

(** ** The pre-send hook *)

Lemma presend_free (env : Env) (w : World) (request : Request) :
  match states w !! getEndpointKey request with
  | Some st => isThrottled st = false
               \/ lastRetryTime st + retryAfter st * 1000 - clock w <= 0
  | None => True
  end ->
  let w' := warned request (waited env request w) in
  clock w' = clock w /\ awaits w' = awaits w
  /\ delays (trace w') = delays (trace w)
  /\ throttled (states w') (getEndpointKey request) = false.
Proof.
  intros Hfree w'.
  destruct (warned_facts request (waited env request w)) as (Hst & Hc & Ha & _ & Hd & _).
  subst w'. rewrite Hst, Hc, Ha, Hd. clear Hst Hc Ha Hd.
  unfold waited, throttled.
  destruct (states w !! getEndpointKey request) as [st|] eqn:Hlook.
  - destruct (isThrottled st) eqn:Hthr.
    + destruct Hfree as [?|Hfree]; [congruence|].
      cbn zeta. destruct (Z.ltb_spec 0 (lastRetryTime st + retryAfter st * 1000 - clock w));
        [lia|].
      cbn. rewrite lookup_alter_eq, Hlook. done.
    + rewrite Hlook, Hthr. done.
  - cbn. rewrite lookup_insert_eq. done.
Qed.

(** C9: when the endpoint of a request has no state, is not throttled, or
    is throttled with a window that has ended, the pre-send hook lets the
    request proceed without suspending: it starts no timer and the clock
    does not move.  It leaves the throttled flag false, and called again at
    once it again starts no timer. *)
Theorem presend_adds_no_delay (env : Env) (w : World) (request : Request)
    (Hfree : match states w !! getEndpointKey request with
             | Some st => isThrottled st = false
                          \/ lastRetryTime st + retryAfter st * 1000 - clock w <= 0
             | None => True
             end) :
  exists w' w'',
    run env (onRequest request) w = (Resolved None, w')
    /\ clock w' = clock w /\ awaits w' = awaits w
    /\ delays (trace w') = delays (trace w)
    /\ throttled (states w') (getEndpointKey request) = false
    /\ run env (onRequest request) w' = (Resolved None, w'')
    /\ clock w'' = clock w /\ awaits w'' = awaits w
    /\ delays (trace w'') = delays (trace w)
    /\ throttled (states w'') (getEndpointKey request) = false.
Proof.
  destruct (presend_free env w request Hfree) as (Hc & Ha & Hd & Hthr).
  set (w' := warned request (waited env request w)) in *.
  assert (Hfree' : match states w' !! getEndpointKey request with
                   | Some st => isThrottled st = false
                                \/ lastRetryTime st + retryAfter st * 1000 - clock w' <= 0
                   | None => True
                   end).
  { unfold throttled in Hthr. destruct (states w' !! getEndpointKey request); auto. }
  destruct (presend_free env w' request Hfree') as (Hc' & Ha' & Hd' & Hthr').
  exists w', (warned request (waited env request w')).
  rewrite !run_onRequest. fold w'.
  repeat split; try assumption; congruence.
Qed.

Lemma presend_witness :
  exists w' w'',
    run Sample.succeeds (onRequest Sample.subscribers) Sample.elapsed = (Resolved None, w')
    /\ clock w' = 3000 /\ throttled (states w') "GET:/v1/subscribers" = false
    /\ run Sample.succeeds (onRequest Sample.subscribers) w' = (Resolved None, w'')
    /\ clock w'' = 3000 /\ delays (trace w'') = [].
Proof.
  destruct (presend_adds_no_delay Sample.succeeds Sample.elapsed Sample.subscribers)
    as (w' & w'' & H1 & Hc & _ & _ & Hthr & H2 & Hc' & _ & Hd' & _).
  - right. cbn. lia.
  - exists w', w''. repeat split; assumption.
Defined.

(** ** Endpoint identity *)

Lemma tchar_not_colon (c : ascii) : is_tchar c = true -> c <> ":"%char.
Proof. intros H ->. discriminate. Qed.

Lemma append_nil (t : string) : "" ++ t = t.
Proof. reflexivity. Qed.

Lemma append_cons (c : ascii) (s t : string) : String c s ++ t = String c (s ++ t).
Proof. reflexivity. Qed.

Lemma key_split (m1 m2 p1 p2 : string) :
  all_tchar m1 = true -> all_tchar m2 = true ->
  m1 ++ ":" ++ p1 = m2 ++ ":" ++ p2 -> m1 = m2 /\ p1 = p2.
Proof.
  revert m2. induction m1 as [|c m1 IH]; intros [|c2 m2];
    rewrite ?append_cons, ?append_nil; cbn [all_tchar].
  - intros _ _ [= ->]. done.
  - intros _ [Hc _]%andb_true_iff [= <- _]. discriminate.
  - intros [Hc _]%andb_true_iff _ [= -> _]. discriminate.
  - intros [_ H1]%andb_true_iff [_ H2]%andb_true_iff [= -> Hrest].
    destruct (IH m2 H1 H2) as [-> ->]; [|done].
    by rewrite !append_cons, !append_nil.
Qed.

Lemma waited_frame (env : Env) (request : Request) (key : string) (st : EndpointState)
    (w : World) :
  key <> getEndpointKey request ->
  waited env request (with_states (<[key := st]> (states w)) w)
  = with_states (<[key := st]> (states (waited env request w))) (waited env request w).
Proof.
  intros Hne. unfold waited. cbn. rewrite lookup_insert_ne by done.
  destruct (states w !! getEndpointKey request) as [st2|] eqn:Hlook.
  - destruct (isThrottled st2); [|reflexivity]. cbn zeta.
    destruct (0 <? _); cbn; unfold with_states; cbn; f_equal;
      by apply alter_insert_ne.
  - unfold with_states. cbn. f_equal. by apply insert_insert_ne.
Qed.

Lemma warned_frame (request : Request) (key : string) (st : EndpointState) (w : World) :
  key <> getEndpointKey request ->
  warned request (with_states (<[key := st]> (states w)) w)
  = with_states (<[key := st]> (states (warned request w))) (warned request w).
Proof.
  intros Hne. unfold warned. cbn. rewrite lookup_insert_ne by done.
  destruct (maxQueueSize <=? _); reflexivity.
Qed.

(** C3: the key of a request is made of its method and the path of its
    URL: the search part, the fragment and the body do not enter it.  Two
    requests have the same key exactly when they have the same method and
    path; and when they differ in either, the pre-send hook for the one
    runs the same whatever the state held for the other (throttled or
    not), and leaves that state as it is. *)
Theorem endpoint_identity (r1 r2 : Request)
    (Hm1 : is_token (method r1) = true) (Hm2 : is_token (method r2) = true) :
  (getEndpointKey r1 = getEndpointKey r2
   <-> method r1 = method r2 /\ pathname (url r1) = pathname (url r2))
  /\ (forall proto' host' search' hash' body',
        getEndpointKey
          {| method := method r1;
             url := {| protocol := proto'; host := host'; pathname := pathname (url r1);
                       search := search'; hash := hash' |};
             reqBody := body' |} = getEndpointKey r1)
  /\ (method r1 <> method r2 \/ pathname (url r1) <> pathname (url r2) ->
      forall (env : Env) (w : World) (st : EndpointState),
      exists w',
        run env (onRequest r2) w = (Resolved None, w')
        /\ run env (onRequest r2)
             (with_states (<[getEndpointKey r1 := st]> (states w)) w)
           = (Resolved None,
              with_states (<[getEndpointKey r1 := st]> (states w')) w')).
Proof.
  apply andb_true_iff in Hm1 as [_ Hm1]. apply andb_true_iff in Hm2 as [_ Hm2].
  assert (Hiff : getEndpointKey r1 = getEndpointKey r2
                 <-> method r1 = method r2 /\ pathname (url r1) = pathname (url r2)).
  { split.
    - by apply key_split.
    - unfold getEndpointKey. by intros [-> ->]. }
  split; [exact Hiff|]. split; [reflexivity|].
  intros Hdiff env w st.
  assert (Hne : getEndpointKey r1 <> getEndpointKey r2).
  { intros [Hm Hp]%Hiff. destruct Hdiff; contradiction. }
  eexists. split; [apply run_onRequest|].
  by rewrite run_onRequest, waited_frame, warned_frame.
Qed.

Lemma endpoint_identity_witness :
  getEndpointKey Sample.subscribers = getEndpointKey Sample.subscribers_query
  /\ getEndpointKey Sample.subscribers <> getEndpointKey Sample.subscribers_post
  /\ getEndpointKey Sample.subscribers <> getEndpointKey Sample.products.
Proof.
  destruct (endpoint_identity Sample.subscribers Sample.subscribers_query eq_refl eq_refl)
    as [[_ Hsame] _].
  destruct (endpoint_identity Sample.subscribers Sample.subscribers_post eq_refl eq_refl)
    as [[Hpost _] _].
  destruct (endpoint_identity Sample.subscribers Sample.products eq_refl eq_refl)
    as [[Hpath _] _].
  split; [|split].
  - apply Hsame. split; reflexivity.
  - intros H. apply Hpost in H as [H _]. discriminate H.
  - intros H. apply Hpath in H as [_ H]. discriminate H.
Defined.

(** ** The retry policy *)

Lemma retryable_body_false (parsed : option JSON) :
  retryable_body parsed = false
  <-> exists props, parsed = Some (JObject props)
                    /\ get_prop "retryable" props = Some (JBool false).
Proof.
  split.
  - destruct parsed as [[| | | | |props]|]; cbn; try discriminate.
    destruct (get_prop "retryable" props) as [[|[]| | | |]|] eqn:Hp; cbn;
      try discriminate.
    intros _. by exists props.
  - intros (props & -> & Hp). cbn. rewrite Hp. reflexivity.
Qed.

(** C4: [isRetryable] resolves, never rejects, and resolves with [false]
    exactly when the body parses to an object whose own property
    [retryable] is the boolean [false]; so it resolves with [true] when the
    property is [true], when it is absent, and when the body does not
    parse. *)
Theorem isRetryable_default_open (env : Env) (w : World) (response : Response) :
  exists b w',
    run env (isRetryable response) w = (Resolved b, w')
    /\ states w' = states w /\ trace w' = trace w
    /\ (b = false
        <-> exists props, jsonBody response = Some (JObject props)
                          /\ get_prop "retryable" props = Some (JBool false))
    /\ (jsonBody response = None -> b = true)
    /\ (forall props, jsonBody response = Some (JObject props) ->
        get_prop "retryable" props = None -> b = true)
    /\ (forall props, jsonBody response = Some (JObject props) ->
        get_prop "retryable" props = Some (JBool true) -> b = true).
Proof.
  exists (retryable_body (jsonBody response)), (suspend env 0 w).
  split; [reflexivity|]. split; [reflexivity|]. split; [reflexivity|].
  split; [apply retryable_body_false|].
  split; [by intros ->|]. split; intros props -> Hp; cbn; by rewrite Hp.
Qed.


(** What [parseInt(value, 10)] makes of some header values. *)
Example parseInt10_samples :
  parseInt10 "2" = Some 2 /\ parseInt10 "0" = Some 0 /\ parseInt10 "120" = Some 120
  /\ parseInt10 "invalid" = None /\ parseInt10 "" = None /\ parseInt10 "-" = None
  /\ parseInt10 " 7" = Some 7 /\ parseInt10 "+3" = Some 3 /\ parseInt10 "2, 5" = Some 2
  /\ parseInt10 "1.5" = Some 1 /\ parseInt10 "-5" = Some (-5).
Proof. repeat split. Qed.

Example getRetryAfterTime_samples :
  getRetryAfterTime (Sample.limited "2") = 2
  /\ getRetryAfterTime (Sample.limited "invalid") = 1
  /\ getRetryAfterTime (Sample.limited "") = 1
  /\ getRetryAfterTime Sample.limited_bare = 1
  /\ getRetryAfterTime {| status := 429; headers := [("retry-after", "30")];
                          jsonBody := None |} = 30.
Proof. repeat split. Qed.




(** C8, as the code has it: the value is negative only when the header
    value has, after leading white space, a minus sign in front of its
    digits; in every other case it is zero or more.  A header value of "0"
    gives 0. *)
Theorem retry_after_nonnegative_without_minus (response : Response)
    (Hsign : forall value rest,
       headers_get "Retry-After" (headers response) = Some value ->
       skip_white_space value <> String "-" rest) :
  0 <= getRetryAfterTime response
  /\ (headers_get "Retry-After" (headers response) = Some "0" ->
      getRetryAfterTime response = 0).
Proof.
  split.
  - unfold getRetryAfterTime.
    destruct (headers_get "Retry-After" (headers response)) as [value|] eqn:Hv; [|lia].
    destruct (truthy value); [|lia].
    destruct (parseInt10 value) as [n|] eqn:Hn; [|lia].
    apply (parseInt10_nonneg value n); [|exact Hn].
    intros rest. by apply Hsign.
  - intros Hzero. unfold getRetryAfterTime. rewrite Hzero. reflexivity.
Qed.

Lemma retry_after_nonnegative_witness :
  0 <= getRetryAfterTime (Sample.limited "0")
  /\ getRetryAfterTime (Sample.limited "0") = 0.
Proof.
  destruct (retry_after_nonnegative_without_minus (Sample.limited "0")) as [Hge Hzero].
  - intros value rest [= <-]. discriminate.
  - split; [exact Hge|]. apply Hzero. reflexivity.
Defined.

(** A [Retry-After] of "-5" is read as -5. *)
Lemma retry_after_can_be_negative :
  headers_get "Retry-After" (headers (Sample.limited "-5")) = Some "-5"
  /\ getRetryAfterTime (Sample.limited "-5") = -5
  /\ getRetryAfterTime (Sample.limited "-5") < 0.
Proof. repeat split. Qed.

(** ** Hooks in flight: the throttled flag and the signal on record *)

Section OnRecord.
Context (g : gmap string (Z * Z)).

Lemma on_record_insert σ k k' st :
  isThrottled st = false -> on_record g σ k' -> on_record g (<[k := st]> σ) k'.
Proof.
  intros Hst H st'. destruct (decide (k = k')) as [->|Hne].
  - rewrite lookup_insert_eq. intros [= <-]. congruence.
  - rewrite lookup_insert_ne by done. apply H.
Qed.

Lemma on_record_clear σ k k' :
  on_record g σ k' -> on_record g (alter (with_isThrottled false) k σ) k'.
Proof.
  intros H st'. destruct (decide (k = k')) as [->|Hne].
  - rewrite lookup_alter_eq. destruct (σ !! k'); [|done]. intros [= <-]. done.
  - rewrite lookup_alter_ne by done. apply H.
Qed.

Lemma on_record_alter_ne σ f k k' :
  k <> k' -> on_record g σ k' -> on_record g (alter f k σ) k'.
Proof. intros Hne H st'. rewrite lookup_alter_ne by done. apply H. Qed.
End OnRecord.

Lemma throttled_insert σ k k0 st :
  isThrottled st = false -> throttled σ k0 = false -> throttled (<[k := st]> σ) k0 = false.
Proof.
  unfold throttled. intros Hst H. destruct (decide (k = k0)) as [->|Hne].
  - by rewrite lookup_insert_eq.
  - by rewrite lookup_insert_ne.
Qed.

Lemma throttled_alter_ne σ f k k0 :
  k <> k0 -> throttled (alter f k σ) k0 = throttled σ k0.
Proof. intros Hne. unfold throttled. by rewrite lookup_alter_ne. Qed.

Lemma throttled_alter_same σ f k k0 :
  (forall st, isThrottled (f st) = isThrottled st) ->
  throttled (alter f k σ) k0 = throttled σ k0.
Proof.
  intros Hf. unfold throttled. destruct (decide (k = k0)) as [->|Hne].
  - rewrite lookup_alter_eq. destruct (σ !! k0); cbn; [apply Hf|done].
  - by rewrite lookup_alter_ne.
Qed.

Lemma no_rise_step key stage stage' σ σ1 σ' :
  (forall k0, stage = Quiet \/ k0 <> key -> stage' = Quiet \/ k0 <> key) ->
  (forall k0, stage = Quiet \/ k0 <> key -> throttled σ k0 = false -> throttled σ1 k0 = false) ->
  no_rise key stage' σ1 σ' -> no_rise key stage σ σ'.
Proof. intros Hst H1 H2 k0 Hk0 Hthr. apply H2; auto. Qed.

Ltac relay := let Hq := fresh in intros ? [Hq|?]; [first [discriminate Hq | by left] | by right].

Lemma advance_sound (g : gmap string (Z * Z)) (key : string) (now : Z) {A : Type}
    (p : Async A) :
  forall (stage : Stage) (σ : gmap string EndpointState),
  obeys key stage p -> in_progress g key now stage σ ->
  obeys key Quiet (advance p σ now).1
  /\ (forall k, on_record g (advance p σ now).2 k)
  /\ no_rise key stage σ (advance p σ now).2.
Proof.
  induction p as [a|e|X e k IH]; intros stage σ Hob HJ.
  - cbn in *. subst. repeat split; try done. by intros k0 _ H.
  - cbn in *. subst. repeat split; try done. by intros k0 _ H.
  - assert (Hgo : forall x stage' σ1,
              obeys key stage' (k x) -> in_progress g key now stage' σ1 ->
              (forall k0, stage = Quiet \/ k0 <> key -> stage' = Quiet \/ k0 <> key) ->
              (forall k0, stage = Quiet \/ k0 <> key -> throttled σ k0 = false ->
                          throttled σ1 k0 = false) ->
              obeys key Quiet (advance (k x) σ1 now).1
              /\ (forall k1, on_record g (advance (k x) σ1 now).2 k1)
              /\ no_rise key stage σ (advance (k x) σ1 now).2).
    { intros x stage' σ1 Hx HJ1 Hst H1.
      destruct (IH x stage' σ1 Hx HJ1) as (? & ? & ?). repeat split; try done.
      by eapply no_rise_step. }
    destruct e; cbn in Hob |- *; destruct stage; cbn in HJ;
      try (by destruct Hob as [_ []]); try (by destruct Hob as [? _]); try done.
    (* DateNow *)
    + apply (Hgo now Quiet); [apply Hob|done|relay|auto].
    + apply (Hgo now (Noting response known)); [apply Hob|done|relay|auto].
    + apply (Hgo now (Sealing now)); [apply Hob|by split|relay|auto].
    (* StatesHas *)
    + apply (Hgo _ Quiet); [apply Hob|done|relay|auto].
    + eapply Hgo; [apply Hob| |relay|auto]. destruct HJ as (Hg & Hothers & Hknown).
      split; [done|]. split; [done|].
      intros [->|[Hp Hk%bool_decide_eq_true]%andb_true_iff]%orb_true_iff; [by apply Hknown|].
      subst. by apply bool_decide_eq_true in Hp.
    (* StatesSet *)
    + destruct Hob as [Hst Hob]. apply (Hgo tt Quiet); [done| |relay|].
      * intros k'. by apply on_record_insert.
      * intros k0 _. by apply throttled_insert.
    + destruct Hob as [Hst Hob]. eapply Hgo; [apply Hob| |relay|].
      * destruct HJ as (Hg & Hothers & Hknown). split; [done|]. split.
        -- intros k' Hk'. apply on_record_insert; auto.
        -- intros [->|Hk%bool_decide_eq_true]%orb_true_iff.
           ++ destruct (decide (key0 = key)) as [->|Hne].
              ** rewrite lookup_insert_eq. by eexists.
              ** rewrite lookup_insert_ne by done. by apply Hknown.
           ++ subst. rewrite lookup_insert_eq. by eexists.
      * intros k0 _. by apply throttled_insert.
    (* StatesGet *)
    + apply (Hgo _ Quiet); [apply Hob|done|relay|auto].
    + destruct HJ as (Hg & Hothers & Hknown).
      destruct (known && bool_decide (key0 = key)) eqn:Hk.
      * apply andb_true_iff in Hk as [-> Hk%bool_decide_eq_true]. subst.
        destruct (Hknown eq_refl) as [st Hst]. rewrite Hst.
        eapply Hgo; [apply Hob| |relay|auto]. done.
      * eapply Hgo; [apply Hob| |relay|auto]. done.
    (* SetIsThrottled *)
    + destruct Hob as [-> Hob]. apply (Hgo tt Quiet); [done| |relay|].
      * intros k'. by apply on_record_clear.
      * intros k0 _. apply throttled_alter_false.
    + destruct Hob as [Hb Hob]. eapply Hgo; [apply Hob| |relay|].
      * destruct HJ as (Hg & Hothers & Hknown). split; [done|]. split.
        -- intros k' Hk'. destruct Hb as [->| ->].
           ++ apply on_record_clear; auto.
           ++ apply on_record_alter_ne; auto.
        -- intros Hkn. apply lookup_alter_is_Some. auto.
      * intros k0 [|Hk0]; [done|]. destruct Hb as [->| ->].
        -- apply throttled_alter_false.
        -- by rewrite throttled_alter_ne.
    (* SetRetryAfter *)
    + destruct Hob as (-> & -> & Hob). destruct HJ as (Hg & Hothers & Hknown).
      apply (Hgo tt Stamping); [done| |relay|].
      * split.
        -- eexists. split; [exact Hg|]. intros st. rewrite lookup_alter_eq.
           destruct (σ !! key); [|done]. by intros [= <-].
        -- intros k' Hk'. apply on_record_alter_ne; auto.
      * intros k0 _. by rewrite throttled_alter_same.
    (* SetLastRetryTime *)
    + destruct Hob as (-> & -> & Hob). destruct HJ as (-> & (ra & Hg & Hra) & Hothers).
      apply (Hgo tt Quiet); [done| |relay|].
      * intros k'. destruct (decide (k' = key)) as [->|Hne].
        -- intros st. rewrite lookup_alter_eq.
           destruct (σ !! key) as [st0|] eqn:Hst0; [|done].
           intros [= <-] _. cbn. by rewrite (Hra st0 eq_refl).
        -- apply on_record_alter_ne; auto.
      * intros k0 _. by rewrite throttled_alter_same.
    (* ConsoleWarn *)
    + apply (Hgo tt Quiet); [apply Hob|done|relay|auto].
    + apply (Hgo tt (Noting response known)); [apply Hob|done|relay|auto].
    (* the three awaits *)
    + split; [exact Hob|]. split; [exact HJ|]. by intros k0 _ H.
    + split; [exact Hob|]. split; [exact HJ|]. by intros k0 _ H.
    + split; [exact Hob|]. split; [exact HJ|]. by intros k0 _ H.
Qed.

Lemma onRequest_obeys (request : Request) :
  obeys (getEndpointKey request) Quiet (onRequest request).
Proof.
  unfold onRequest, waitForThrottle, warnIfQueueTooLarge, getQueueSize,
    initEndpointState, getState.
  cbn. intros [|]; cbn; [|split; [done|]]; intros [st|]; cbn; try done.
  all: destruct (isThrottled st); cbn.
  all: try (intros now; destruct (0 <? _); cbn; repeat split; try done).
  all: intros found; destruct (maxQueueSize <=? _); cbn; done.
Qed.

Lemma retryLoop_obeys (request : Request) (n : nat) :
  forall (ra : Z) (last : Response),
  obeys (getEndpointKey request) Quiet
    (retryLoop n request (getEndpointKey request) ra last ≫= λ r, mret (Some r)).
Proof.
  induction n as [|n IH]; intros ra last.
  - cbn. done.
  - cbn. split; [done|]. split; [done|]. intros [r|e]; cbn; [|done].
    destruct (status r =? 429) eqn:Hs; cbn; [|done].
    split; [done|]. unfold retryable429. rewrite Hs. cbn.
    destruct (retryable_body (jsonBody r)); cbn; [|done].
    split; [done|]. split; [done|]. intros now. split; [done|]. split; [done|].
    apply IH.
Qed.

Lemma onResponse_obeys (request : Request) (response : Response) :
  obeys (getEndpointKey request) Quiet (onResponse request response).
Proof.
  unfold onResponse. destruct (status response =? 429) eqn:Hs; [|done].
  unfold handleResponse. rewrite Hs. cbn -[retryLoop maxRetries].
  split; [done|]. unfold retryable429. rewrite Hs. cbn -[retryLoop maxRetries].
  destruct (retryable_body (jsonBody response)); cbn -[retryLoop maxRetries]; [|done].
  intros [|]; cbn -[retryLoop maxRetries].
  - rewrite bool_decide_eq_true_2 by done. cbn -[retryLoop maxRetries].
    intros st. split; [by right|]. split; [done|]. split; [done|].
    intros now. split; [done|]. split; [done|]. apply retryLoop_obeys.
  - split; [done|]. rewrite bool_decide_eq_true_2 by done. cbn -[retryLoop maxRetries].
    intros st. split; [by right|]. split; [done|]. split; [done|].
    intros now. split; [done|]. split; [done|]. apply retryLoop_obeys.
Qed.

Lemma resume_timer_obeys key since now {A} (p p' : Async A) :
  obeys key Quiet p -> resume_timer since now p = Some p' -> obeys key Quiet p'.
Proof.
  destruct p as [| |X e k]; cbn; try done. destruct e; try done.
  intros [_ Hob]. destruct (_ <=? _); [|done]. by intros [= <-].
Qed.

Lemma resume_fetch_obeys key outcome {A} (p p' : Async A) :
  obeys key Quiet p -> resume_fetch outcome p = Some p' -> obeys key Quiet p'.
Proof.
  destruct p as [| |X e k]; cbn; try done. destruct e; try done.
  intros [_ Hob] [= <-]. apply Hob.
Qed.

Lemma resume_json_obeys key {A} (p p' : Async A) :
  obeys key Quiet p -> resume_json p = Some p' ->
  exists r, awaited_body p = Some r
    /\ obeys key (if retryable429 r then Noting r false else Quiet) p'.
Proof.
  destruct p as [| |X e k]; cbn; try done. destruct e; try done.
  intros [_ Hob] [= <-]. exists response. split; [done|].
  by destruct (retryable429 response).
Qed.

Lemma resume_json_awaited {A} (p : Async A) :
  awaited_body p = None -> resume_json p = None.
Proof. destruct p as [| |X e k]; cbn; try done. by destruct e. Qed.

(** What resuming one task does, given the stage that the resumed program
    is in. *)
Lemma resume_task_sound (pick : Z -> forall A : Type, Async A -> option (Async A))
    (g : gmap string (Z * Z)) (stage : Stage) (σ σ' : gmap string EndpointState)
    (now : Z) (t t' : Task) :
  task_obeys t ->
  (forall (A : Type) (since : Z) (p p' : Async A),
     obeys (getEndpointKey (task_request t)) Quiet p ->
     awaited_body p = task_awaited_body t ->
     pick since A p = Some p' ->
     obeys (getEndpointKey (task_request t)) stage p') ->
  in_progress g (getEndpointKey (task_request t)) now stage σ ->
  resume_task pick σ now t = Some (t', σ') ->
  task_obeys t' /\ (forall k, on_record g σ' k)
  /\ no_rise (getEndpointKey (task_request t)) stage σ σ'.
Proof.
  intros Hob Hpick HJ. destruct t as [request since p|request since p]; cbn in *.
  - destruct (pick since _ p) as [p'|] eqn:Hp; [|done].
    destruct (advance p' σ now) as [p'' σ''] eqn:Hadv. intros [= <- <-].
    pose proof (advance_sound g (getEndpointKey request) now p' stage σ
                  (Hpick _ _ _ _ Hob eq_refl Hp) HJ) as Hs.
    rewrite Hadv in Hs. exact Hs.
  - destruct (pick since _ p) as [p'|] eqn:Hp; [|done].
    destruct (advance p' σ now) as [p'' σ''] eqn:Hadv. intros [= <- <-].
    pose proof (advance_sound g (getEndpointKey request) now p' stage σ
                  (Hpick _ _ _ _ Hob eq_refl Hp) HJ) as Hs.
    rewrite Hadv in Hs. exact Hs.
Qed.

Lemma pool_insert_obeys (l : list Task) (i : nat) (t' : Task) :
  (forall t, t ∈ l -> task_obeys t) -> task_obeys t' ->
  forall t, t ∈ <[i := t']> l -> task_obeys t.
Proof.
  intros Hl Ht' t Ht. apply list_elem_of_lookup in Ht as [j Hj].
  destruct (decide (i = j)) as [->|Hne].
  - destruct (decide (j < List.length l)%nat).
    + rewrite list_lookup_insert_eq in Hj by done. by injection Hj as <-.
    + rewrite list_insert_ge in Hj by lia. apply Hl. by eapply list_elem_of_lookup_2.
  - rewrite list_lookup_insert_ne in Hj by done. apply Hl. by eapply list_elem_of_lookup_2.
Qed.

Lemma no_rise_false key stage σ σ' k0 :
  no_rise key stage σ σ' -> stage = Quiet \/ k0 <> key ->
  throttled σ k0 = false -> throttled σ' k0 = true -> False.
Proof. intros H Hst Hf Ht. rewrite (H k0 Hst Hf) in Ht. done. Qed.

Lemma call_sound (s : System) {A : Type} (p : Async A) (key : string) :
  invariant s -> obeys key Quiet p ->
  obeys key Quiet (advance p (store s) (time s)).1
  /\ (forall k, on_record (signals s) (advance p (store s) (time s)).2 k)
  /\ no_rise key Quiet (store s) (advance p (store s) (time s)).2.
Proof. intros [Hrec _] Hob. by apply advance_sound. Qed.

Lemma resume_quiet_sound (pick : Z -> forall A : Type, Async A -> option (Async A))
    (i : nat) (s s' : System) :
  (forall key (A : Type) (since : Z) (p p' : Async A),
     obeys key Quiet p -> pick since A p = Some p' -> obeys key Quiet p') ->
  invariant s -> resume_at pick i (signals s) s = Some s' ->
  invariant s' /\ forall k, throttled (store s) k = false -> throttled (store s') k = false.
Proof.
  intros Hpick [Hrec Hpool]. unfold resume_at.
  destruct (pool s !! i) as [t|] eqn:Hi; [|done].
  destruct (resume_task pick (store s) (time s) t) as [[t' σ']|] eqn:Hres; [|done].
  intros [= <-]. cbn.
  destruct (resume_task_sound pick (signals s) Quiet (store s) σ' (time s) t t')
    as (Ht' & Hrec' & Hrise); try done.
  - apply Hpool. by eapply list_elem_of_lookup_2.
  - intros A since p p' Hp _. by apply Hpick.
  - split; [split|]; cbn; [done| |].
    + by apply pool_insert_obeys.
    + intros k. apply Hrise. by left.
Qed.

Lemma apply_move_signals (i : nat) (s s' : System) :
  apply_move (JsonSettles i) s = Some s' ->
  exists t, pool s !! i = Some t
    /\ signals s' = note_signal (signal_of t (time s)) (signals s).
Proof.
  cbn. destruct (pool s !! i) as [t|] eqn:Hi; [|done]. unfold resume_at. rewrite Hi.
  destruct (resume_task _ _ _ t) as [[t' σ']|]; [|done]. intros [= <-].
  by exists t.
Qed.

(** Every move keeps the invariant, and only the settling of a body read
    that carries a signal for an endpoint raises its flag. *)
Lemma move_sound (s s' : System) (m : Move) :
  invariant s -> apply_move m s = Some s' ->
  invariant s'
  /\ forall k, throttled (store s) k = false -> throttled (store s') k = true ->
       exists i t v, m = JsonSettles i /\ pool s !! i = Some t
                     /\ signal_of t (time s) = Some (k, v).
Proof.
  intros Hinv. pose proof Hinv as [Hrec Hpool]. destruct m as [dt|r|r resp|i|i o|i].
  - cbn. intros [= <-]. split; [exact Hinv|]. cbn. congruence.
  - unfold apply_move. pose proof (call_sound s (onRequest r) _ Hinv (onRequest_obeys r)) as Hs.
    destruct (advance (onRequest r) (store s) (time s)) as [p σ'].
    destruct Hs as (Hp & Hrec' & Hrise). cbn. intros [= <-]. split; [split|]; cbn.
    + exact Hrec'.
    + intros t [Ht|Ht%list_elem_of_singleton]%elem_of_app; [by apply Hpool|by subst].
    + intros k Hf Ht. destruct (no_rise_false _ _ _ _ k Hrise (or_introl eq_refl) Hf Ht).
  - unfold apply_move.
    pose proof (call_sound s (onResponse r resp) _ Hinv (onResponse_obeys r resp)) as Hs.
    destruct (advance (onResponse r resp) (store s) (time s)) as [p σ'].
    destruct Hs as (Hp & Hrec' & Hrise). cbn. intros [= <-]. split; [split|]; cbn.
    + exact Hrec'.
    + intros t [Ht|Ht%list_elem_of_singleton]%elem_of_app; [by apply Hpool|by subst].
    + intros k Hf Ht. destruct (no_rise_false _ _ _ _ k Hrise (or_introl eq_refl) Hf Ht).
  - cbn. intros Hres. apply resume_quiet_sound in Hres as [Hinv' Hrise]; [|
      intros key A since p p'; apply resume_timer_obeys|done].
    split; [exact Hinv'|]. intros k Hf Ht. by rewrite (Hrise k Hf) in Ht.
  - cbn. intros Hres. apply resume_quiet_sound in Hres as [Hinv' Hrise]; [|
      intros key A since p p'; apply resume_fetch_obeys|done].
    split; [exact Hinv'|]. intros k Hf Ht. by rewrite (Hrise k Hf) in Ht.
  - cbn. destruct (pool s !! i) as [t|] eqn:Hi; [|done]. unfold resume_at. rewrite Hi.
    destruct (resume_task _ (store s) (time s) t) as [[t' σ']|] eqn:Hres; [|done].
    intros [= <-]. cbn.
    set (key := getEndpointKey (task_request t)).
    set (stage := match task_awaited_body t with
                  | Some r => if retryable429 r then Noting r false else Quiet
                  | None => Quiet
                  end).
    destruct (resume_task_sound (fun _ => @resume_json)
                (note_signal (signal_of t (time s)) (signals s)) stage (store s) σ'
                (time s) t t') as (Ht' & Hrec' & Hrise); try done.
    + apply Hpool. by eapply list_elem_of_lookup_2.
    + intros A since p p' Hp Hbody Hjson.
      destruct (resume_json_obeys _ p p' Hp Hjson) as (r & Hr & Hob).
      subst stage. by rewrite <- Hbody, Hr.
    + subst stage. unfold signal_of. fold key.
      destruct (task_awaited_body t) as [r|]; [|exact Hrec].
      destruct (retryable429 r); [|exact Hrec]. cbn.
      split; [by rewrite lookup_insert_eq|]. split; [|done].
      intros k Hk st. rewrite lookup_insert_ne by done. apply Hrec.
    + split; [split|]; cbn; [done|by apply pool_insert_obeys|].
      intros k Hf Ht. exists i, t. unfold signal_of. fold key.
      subst stage. destruct (task_awaited_body t) as [r|];
        [|by destruct (no_rise_false _ _ _ _ k Hrise); auto].
      destruct (retryable429 r); [|by destruct (no_rise_false _ _ _ _ k Hrise); auto].
      destruct (decide (k = key)) as [->|Hne]; [by eexists|].
      by destruct (no_rise_false _ _ _ _ k Hrise); auto.
Qed.

Lemma reachable_invariant (s : System) : reachable s -> invariant s.
Proof.
  induction 1 as [t0|s m s' _ IH Hm].
  - split; [|by intros t Ht%elem_of_nil]. intros k st Hst. cbn in Hst.
    by rewrite lookup_empty in Hst.
  - by destruct (move_sound s s' m IH Hm).
Qed.

Lemma exec_reachable (ms : list Move) :
  forall s s', reachable s -> exec ms s = Some s' -> reachable s'.
Proof.
  induction ms as [|m ms IH]; intros s s' Hs; cbn.
  - by intros [= <-].
  - destruct (apply_move m s) as [s1|] eqn:Hm; [|done].
    apply IH. by eapply reach_move.
Qed.

(** C10, as the code has it: in every state that the hooks can reach,
    however their calls interleave, an endpoint whose throttled flag is set
    holds in [retryAfter] and [lastRetryTime] the seconds and the time of
    the last retryable 429 seen for it; and a move that raises the flag of
    an endpoint is the settling of the body read of such a 429 for that
    endpoint, after which the two other fields hold its seconds and the
    time of the move. *)
Theorem throttled_reflects_last_signal (s : System) (Hreach : reachable s) :
  (forall k st, store s !! k = Some st -> isThrottled st = true ->
     signals s !! k = Some (retryAfter st, lastRetryTime st))
  /\ (forall m s' k,
        apply_move m s = Some s' ->
        throttled (store s) k = false -> throttled (store s') k = true ->
        exists i t st',
          m = JsonSettles i /\ pool s !! i = Some t
          /\ store s' !! k = Some st'
          /\ signal_of t (time s) = Some (k, (retryAfter st', lastRetryTime st'))
          /\ lastRetryTime st' = time s).
Proof.
  pose proof (reachable_invariant s Hreach) as Hinv.
  split; [exact (proj1 Hinv)|].
  intros m s' k Hm Hf Ht.
  destruct (move_sound s s' m Hinv Hm) as [[Hrec' _] Hrise].
  destruct (Hrise k Hf Ht) as (i & t & v & -> & Hi & Hsig).
  destruct (apply_move_signals i s s' Hm) as (t1 & Hi1 & Hsignals).
  rewrite Hi in Hi1. injection Hi1 as <-.
  unfold throttled in Ht. destruct (store s' !! k) as [st'|] eqn:Hst'; [|done].
  pose proof (Hrec' k st' Hst' Ht) as Hpair.
  rewrite Hsignals, Hsig in Hpair. cbn in Hpair. rewrite lookup_insert_eq in Hpair.
  injection Hpair as ->.
  exists i, t, st'. repeat split; try done.
  unfold signal_of in Hsig. destruct (task_awaited_body t) as [r|]; [|done].
  destruct (retryable429 r); [|done]. by injection Hsig as _ _ <-.
Qed.

Lemma runs_exec (ms : list Move) :
  Sample.runs ms = true -> exec ms (boot 0) = Some (Sample.after ms).
Proof.
  unfold Sample.runs, Sample.after. by destruct (exec ms (boot 0)).
Qed.

Lemma exec_snoc (ms : list Move) (m : Move) :
  forall s, exec (ms ++ [m]) s
            = match exec ms s with Some s' => apply_move m s' | None => None end.
Proof.
  induction ms as [|m0 ms IH]; intros s; cbn.
  - by destruct (apply_move m s).
  - destruct (apply_move m0 s); [apply IH|done].
Qed.

Lemma after_reachable (ms : list Move) :
  Sample.runs ms = true -> reachable (Sample.after ms).
Proof.
  intros H. apply (exec_reachable ms (boot 0)); [apply reach_boot|by apply runs_exec].
Qed.

Lemma throttled_reflects_witness :
  reachable (Sample.after Sample.first_signal)
  /\ throttled (store (Sample.after Sample.first_signal)) "GET:/v1/subscribers" = true
  /\ signals (Sample.after Sample.first_signal) !! "GET:/v1/subscribers" = Some (1, 0).
Proof.
  assert (Hreach : reachable (Sample.after Sample.first_signal)).
  { apply after_reachable. vm_compute. reflexivity. }
  split; [exact Hreach|]. split; [vm_compute; reflexivity|].
  refine (proj1 (throttled_reflects_last_signal _ Hreach)
            "GET:/v1/subscribers"
            {| isThrottled := true; retryAfter := 1; queue := [];
               lastRetryTime := 0; processing := false |} _ _);
    vm_compute; reflexivity.
Defined.

(** The two other fields are written without the flag: after a pre-send
    hook has cleared the flag of an endpoint, a retry that is answered by a
    retryable 429 writes [retryAfter] and [lastRetryTime] and leaves the
    flag cleared. *)
Lemma fields_written_without_flag :
  reachable (Sample.after Sample.cleared_then_limited)
  /\ apply_move (JsonSettles 0) (Sample.after Sample.cleared_then_limited)
     = Some (Sample.after (Sample.cleared_then_limited ++ [JsonSettles 0]))
  /\ store (Sample.after Sample.cleared_then_limited) !! "GET:/v1/subscribers"
     = Some {| isThrottled := false; retryAfter := 1; queue := [];
               lastRetryTime := 0; processing := false |}
  /\ store (Sample.after (Sample.cleared_then_limited ++ [JsonSettles 0]))
       !! "GET:/v1/subscribers"
     = Some {| isThrottled := false; retryAfter := 5; queue := [];
               lastRetryTime := 1000; processing := false |}
  /\ signals (Sample.after (Sample.cleared_then_limited ++ [JsonSettles 0]))
       !! "GET:/v1/subscribers" = Some (5, 1000).
Proof.
  assert (H1 : Sample.runs Sample.cleared_then_limited = true)
    by (vm_compute; reflexivity).
  assert (H2 : Sample.runs (Sample.cleared_then_limited ++ [JsonSettles 0]) = true)
    by (vm_compute; reflexivity).
  split; [by apply after_reachable|]. split.
  { rewrite <- (runs_exec _ H2), exec_snoc, (runs_exec _ H1). reflexivity. }
  repeat split; vm_compute; reflexivity.
Qed.

(** * Further properties of the code *)

(** ** The hooks, run to completion *)

(** X1: a response whose status is not 429 passes through: [handleResponse]
    returns it and the post-receive hook returns [undefined], without
    suspending and without touching the clock, the trace or
    [endpointStates]. *)
Theorem other_status_passes_through
    (env : Env) (w : World) (request : Request) (response : Response)
    (Hstatus : status response <> 429) :
  run env (handleResponse request response) w = (Resolved response, w)
  /\ run env (onResponse request response) w = (Resolved None, w).
Proof.
  unfold onResponse, handleResponse.
  destruct (Z.eqb_spec (status response) 429); [done|]. by split.
Qed.

Lemma other_status_witness :
  run Sample.succeeds (onResponse Sample.subscribers Sample.success) Sample.start
  = (Resolved None, Sample.start).
Proof.
  apply (other_status_passes_through Sample.succeeds Sample.start Sample.subscribers
           Sample.success).
  cbn. lia.
Defined.

Lemma with_isThrottled_same (st : EndpointState) :
  isThrottled st = false -> with_isThrottled false st = st.
Proof. destruct st. cbn. by intros ->. Qed.

Lemma waited_states (env : Env) (request : Request) (w : World) :
  states (waited env request w)
  = <[getEndpointKey request :=
        match states w !! getEndpointKey request with
        | Some st => with_isThrottled false st
        | None => freshState
        end]> (states w).
Proof.
  unfold waited. destruct (states w !! getEndpointKey request) as [st|] eqn:Hst; [|done].
  destruct (isThrottled st) eqn:Hthr.
  - cbn. apply map_eq. intros k. destruct (decide (k = getEndpointKey request)) as [->|Hne].
    + by rewrite lookup_alter_eq, lookup_insert_eq, Hst.
    + by rewrite lookup_alter_ne, lookup_insert_ne.
  - rewrite with_isThrottled_same by done. by rewrite insert_id.
Qed.

Lemma waited_sends (env : Env) (request : Request) (w : World) :
  sends (waited env request w) = sends w
  /\ fetches (trace (waited env request w)) = fetches (trace w).
Proof.
  unfold waited. destruct (states w !! getEndpointKey request) as [st|]; [|done].
  destruct (isThrottled st); [|done]. cbn. destruct (0 <? _); [|done]. cbn.
  split; [done|]. unfold fetches. rewrite filter_app. cbn. by rewrite app_nil_r.
Qed.

(** X3: whatever the state, the pre-send hook resolves with [undefined],
    sends nothing, and changes [endpointStates] only at the key of its
    request: an absent entry is created fresh, and of an entry that is
    there only the throttled flag is touched, and cleared. *)
Theorem presend_touches_own_flag_only (env : Env) (w : World) (request : Request) :
  exists w',
    run env (onRequest request) w = (Resolved None, w')
    /\ sends w' = sends w
    /\ fetches (trace w') = fetches (trace w)
    /\ (forall key, key <> getEndpointKey request -> states w' !! key = states w !! key)
    /\ states w' !! getEndpointKey request
       = Some match states w !! getEndpointKey request with
              | Some st => with_isThrottled false st
              | None => freshState
              end.
Proof.
  exists (warned request (waited env request w)). split; [apply run_onRequest|].
  destruct (warned_facts request (waited env request w)) as (-> & _ & _ & -> & _ & ->).
  destruct (waited_sends env request w) as [-> ->]. rewrite waited_states.
  repeat split; try done.
  - intros key Hne. by rewrite lookup_insert_ne.
  - by rewrite lookup_insert_eq.
Qed.

(** X2: when the flag of its endpoint is set and the window is still
    open, the pre-send hook starts one timer, for exactly what is left of
    the window, and then clears the flag; for a wait that a timer can hold
    (up to 2^31-1 ms) it returns no earlier than the end of the window. *)
Theorem presend_waits_out_window
    (env : Env) (w : World) (request : Request) (st : EndpointState)
    (Hst : states w !! getEndpointKey request = Some st)
    (Hthr : isThrottled st = true)
    (Hrem : 0 < lastRetryTime st + retryAfter st * 1000 - clock w) :
  exists w',
    run env (onRequest request) w = (Resolved None, w')
    /\ delays (trace w')
       = (delays (trace w)
          ++ [EvDelay (lastRetryTime st + retryAfter st * 1000 - clock w)])%list
    /\ awaits w' = S (awaits w)
    /\ states w' !! getEndpointKey request = Some (with_isThrottled false st)
    /\ (lastRetryTime st + retryAfter st * 1000 - clock w <= 2147483647 ->
        lastRetryTime st + retryAfter st * 1000 <= clock w').
Proof.
  exists (warned request (waited env request w)). split; [apply run_onRequest|].
  destruct (warned_facts request (waited env request w)) as (-> & -> & -> & _ & -> & _).
  rewrite waited_states, Hst, lookup_insert_eq.
  unfold waited. rewrite Hst, Hthr. cbn zeta.
  destruct (Z.ltb_spec 0 (lastRetryTime st + retryAfter st * 1000 - clock w)); [|lia].
  cbn. split; [|split; [done|split; [done|]]].
  - unfold delays. rewrite filter_app. done.
  - intros Hmax. unfold timer_floor.
    destruct (Z.leb_spec 0 (lastRetryTime st + retryAfter st * 1000 - clock w)); [|lia].
    destruct (Z.leb_spec (lastRetryTime st + retryAfter st * 1000 - clock w) 2147483647);
      [|lia].
    cbn. lia.
Qed.

Lemma presend_waits_witness :
  exists w',
    run Sample.succeeds (onRequest Sample.subscribers) Cases.waiting = (Resolved None, w')
    /\ delays (trace w') = [EvDelay 1500]
    /\ 2000 <= clock w'
    /\ throttled (states w') "GET:/v1/subscribers" = false.
Proof.
  destruct (presend_waits_out_window Sample.succeeds Cases.waiting Sample.subscribers
              {| isThrottled := true; retryAfter := 2; queue := [];
                 lastRetryTime := 0; processing := false |})
    as (w' & Hrun & Hd & _ & Hst & Hc).
  - reflexivity.
  - reflexivity.
  - cbn. lia.
  - exists w'. split; [exact Hrun|]. split; [exact Hd|]. split.
    + apply Hc. cbn. lia.
    + unfold throttled. change "GET:/v1/subscribers" with (getEndpointKey Sample.subscribers).
      rewrite Hst. reflexivity.
Defined.

(** What a run of the loop does to [endpointStates], whatever the transport
    answers. *)
Lemma loop_states (env : Env) (request : Request) (key : string) (n : nat) :
  forall (ra : Z) (last : Response) (w : World),
  is_Some (states w !! key) ->
  throttled (states (run env (retryLoop n request key ra last) w).2) key = false
  /\ is_Some (states (run env (retryLoop n request key ra last) w).2 !! key)
  /\ forall key', key' <> key ->
       states (run env (retryLoop n request key ra last) w).2 !! key' = states w !! key'.
Proof.
  assert (Hclear : forall w0 : World, is_Some (states w0 !! key) ->
            throttled (states (cleared key w0)) key = false
            /\ is_Some (states (cleared key w0) !! key)
            /\ forall key', key' <> key -> states (cleared key w0) !! key' = states w0 !! key').
  { intros w0 Hk. cbn. split; [by apply throttled_alter|]. split.
    - by apply lookup_alter_is_Some.
    - intros key' Hne. by rewrite lookup_alter_ne. }
  induction n as [|n IH]; intros ra last w Hkey.
  - rewrite run_retryLoop_O. by apply Hclear.
  - rewrite run_retryLoop_S. cbn zeta.
    set (w2 := after_fetch env request (after_delay env (ra * 1000) w)).
    destruct (transport env (sends w) request) as [r|e].
    + destruct (negb (status r =? 429)).
      { exact (Hclear w2 Hkey). }
      destruct (negb (retryable_body (jsonBody r))).
      { exact (Hclear (suspend env 0 w2) Hkey). }
      destruct (IH (getRetryAfterTime r) r (refreshed env key r w2)) as (Ht & Hs & Hf).
      { cbn. rewrite !lookup_alter_eq. destruct Hkey as [st ->]. by eexists. }
      split; [exact Ht|]. split; [exact Hs|]. intros key' Hne.
      rewrite Hf by done. cbn. by rewrite !lookup_alter_ne.
    + exact (Hclear w2 Hkey).
Qed.

Lemma armed_other (env : Env) (request : Request) (response : Response) (w : World)
    (key' : string) :
  key' <> getEndpointKey request ->
  states (armed env request response w) !! key' = states w !! key'.
Proof.
  intros Hne. unfold armed. cbn. rewrite !lookup_alter_ne by done. by apply ensure_other.
Qed.

(** X4: after a retryable 429, however the transport answers the retries,
    [handleResponse] ends with an entry for the endpoint whose throttled
    flag is cleared. *)
Theorem post_receive_always_clears_flag
    (env : Env) (w : World) (request : Request) (response : Response)
    (H429 : retryable429 response = true) :
  throttled (states (run env (handleResponse request response) w).2)
    (getEndpointKey request) = false
  /\ is_Some (states (run env (handleResponse request response) w).2
              !! getEndpointKey request).
Proof.
  rewrite run_handleResponse_retryable by done.
  destruct (armed_facts env request response w) as (Hkey & _).
  destruct (loop_states env request (getEndpointKey request) maxRetries
              (getRetryAfterTime response) response _ Hkey) as (Ht & Hs & _).
  by split.
Qed.

Lemma post_receive_clears_witness :
  throttled
    (states (run Sample.network_down
               (handleResponse Sample.subscribers (Sample.limited "1")) Sample.start).2)
    "GET:/v1/subscribers" = false.
Proof.
  apply (post_receive_always_clears_flag Sample.network_down Sample.start
           Sample.subscribers (Sample.limited "1")).
  reflexivity.
Defined.

Lemma run_handleResponse_cases (env : Env) (request : Request) (response : Response)
    (w : World) :
  retryable429 response = true
  \/ states (run env (handleResponse request response) w).2 = states w.
Proof.
  destruct (retryable429 response) eqn:H; [by left|right].
  unfold handleResponse, retryable429 in *.
  destruct (status response =? 429); [|done]. cbn in *. rewrite H. done.
Qed.

(** X5: [handleResponse] changes [endpointStates] at the key of its request
    only: the entry of every other endpoint is as it was, whatever the
    response and whatever the transport answers. *)
Theorem post_receive_leaves_other_endpoints
    (env : Env) (w : World) (request : Request) (response : Response) (key' : string) :
  key' <> getEndpointKey request ->
  states (run env (handleResponse request response) w).2 !! key' = states w !! key'.
Proof.
  intros Hne. destruct (run_handleResponse_cases env request response w) as [H429| ->];
    [|done].
  rewrite run_handleResponse_retryable by done.
  destruct (armed_facts env request response w) as (Hkey & _).
  destruct (loop_states env request (getEndpointKey request) maxRetries
              (getRetryAfterTime response) response _ Hkey) as (_ & _ & Hf).
  rewrite Hf by done. by apply armed_other.
Qed.

Lemma post_receive_frame_witness :
  states (run Sample.always_limited
            (handleResponse Sample.products (Sample.limited "1")) Sample.elapsed).2
    !! "GET:/v1/subscribers"
  = states Sample.elapsed !! "GET:/v1/subscribers".
Proof.
  apply (post_receive_leaves_other_endpoints Sample.always_limited Sample.elapsed
           Sample.products (Sample.limited "1") "GET:/v1/subscribers").
  discriminate.
Defined.

(** X6: when a retry is answered by a 429 whose body says it must not be
    retried, the loop stops there: [handleResponse] returns that 429, the
    flag is cleared, and the send that was so answered is its last act. *)
Theorem retry_stops_at_non_retryable_429
    (env : Env) (w : World) (request : Request) (response : Response)
    (i : nat) (final : Response)
    (H429 : retryable429 response = true)
    (Hi : (i < maxRetries)%nat)
    (Hbefore : still_limited env request (sends w) i)
    (Hsend : transport env (sends w + i)%nat request = inl final)
    (Hstatus : status final = 429)
    (Hfinal : retryable_body (jsonBody final) = false) :
  exists w',
    run env (handleResponse request response) w = (Resolved final, w')
    /\ run env (onResponse request response) w = (Resolved (Some final), w')
    /\ throttled (states w') (getEndpointKey request) = false
    /\ sends w' = (sends w + S i)%nat
    /\ (exists evs ms, trace w' = (trace w ++ evs ++ [EvDelay ms; EvFetch request []])%list).
Proof.
  pose proof (armed_facts env request response w) as (Hkey & Hs0 & Ht0 & Hc0).
  rewrite run_onResponse by (by apply retryable429_status).
  rewrite run_handleResponse_retryable by assumption.
  replace maxRetries with (i + S (maxRetries - S i))%nat by lia.
  set (w0 := armed env request response w) in *.
  destruct (loop_turns env request (getEndpointKey request) i (S (maxRetries - S i))
              (getRetryAfterTime response) response w0)
    as (ra' & last' & w1 & Hrun & Hs & Hk & Hc & [evs He] & Hl);
    [by rewrite Hs0|assumption|].
  rewrite Hrun, run_retryLoop_S. cbn zeta. rewrite Hs, Hs0, Hsend, Hstatus, Hfinal.
  cbn [Z.eqb Pos.eqb negb]. eexists. split; [reflexivity|]. split; [reflexivity|].
  split. { cbn. by apply throttled_alter. }
  split. { cbn. rewrite Hs, Hs0. lia. }
  exists evs, (ra' * 1000). cbn. rewrite He, Ht0, <- !app_assoc. reflexivity.
Qed.

Lemma retry_stops_witness :
  exists w',
    run Cases.refuses (onResponse Sample.subscribers Sample.limited_retryable) Sample.start
    = (Resolved (Some Sample.limited_final), w')
    /\ sends w' = 1%nat
    /\ throttled (states w') "GET:/v1/subscribers" = false.
Proof.
  destruct (retry_stops_at_non_retryable_429 Cases.refuses Sample.start Sample.subscribers
              Sample.limited_retryable 0 Sample.limited_final)
    as (w' & _ & Hrun & Hthr & Hs & _).
  - reflexivity.
  - unfold maxRetries. lia.
  - intros j Hj. lia.
  - reflexivity.
  - reflexivity.
  - reflexivity.
  - exists w'. split; [exact Hrun|]. split; [exact Hs|exact Hthr].
Defined.

Lemma loop_turn_limited (env : Env) (n : nat) request key ra last (w : World) (r : Response) :
  transport env (sends w) request = inl r -> retryable429 r = true ->
  run env (retryLoop (S n) request key ra last) w
  = run env (retryLoop n request key (getRetryAfterTime r) r)
      (refreshed env key r (after_fetch env request (after_delay env (ra * 1000) w))).
Proof.
  intros Hr H429. rewrite run_retryLoop_S. cbn zeta.
  by rewrite Hr, (retryable429_status r H429), (retryable429_body r H429).
Qed.

(** X7: each wait of the loop is the [Retry-After] of the response last
    received: when the three retries are all answered by retryable 429s,
    the hook waits the seconds of the original response, then those of the
    first answer, then those of the second, sending after each wait; the
    seconds of the third answer are stored but never waited for. *)
Theorem each_wait_uses_latest_retry_after
    (env : Env) (w : World) (request : Request) (response r1 r2 r3 : Response)
    (H429 : retryable429 response = true)
    (Hr1 : transport env (sends w) request = inl r1)
    (Hr2 : transport env (S (sends w)) request = inl r2)
    (Hr3 : transport env (S (S (sends w))) request = inl r3)
    (H1 : retryable429 r1 = true) (H2 : retryable429 r2 = true)
    (H3 : retryable429 r3 = true) :
  exists w' st',
    run env (handleResponse request response) w = (Resolved r3, w')
    /\ trace w'
       = (trace w ++
          [EvDelay (getRetryAfterTime response * 1000); EvFetch request [];
           EvDelay (getRetryAfterTime r1 * 1000); EvFetch request [];
           EvDelay (getRetryAfterTime r2 * 1000); EvFetch request []])%list
    /\ clock w + timer_floor (getRetryAfterTime response * 1000)
       + timer_floor (getRetryAfterTime r1 * 1000)
       + timer_floor (getRetryAfterTime r2 * 1000) <= clock w'
    /\ states w' !! getEndpointKey request = Some st'
    /\ isThrottled st' = false
    /\ retryAfter st' = getRetryAfterTime r3
    /\ lastRetryTime st' = clock w'.
Proof.
  rewrite run_handleResponse_retryable by done.
  destruct (armed_facts env request response w) as ([st0 Hst0] & Hs0 & Ht0 & Hc0).
  remember (armed env request response w) as w0 eqn:Hw0. clear Hw0.
  change maxRetries with 3%nat.
  rewrite (loop_turn_limited env 2 _ _ _ _ _ r1) by (by rewrite ?Hs0).
  rewrite (loop_turn_limited env 1 _ _ _ _ _ r2) by (by cbn; rewrite ?Hs0).
  rewrite (loop_turn_limited env 0 _ _ _ _ _ r3) by (by cbn; rewrite ?Hs0).
  rewrite run_retryLoop_O.
  eexists. eexists. split; [reflexivity|].
  split. { cbn. rewrite Ht0, <- !app_assoc. reflexivity. }
  split. { cbn. lia. }
  cbn. rewrite !lookup_alter_eq, Hst0. cbn. repeat split.
Qed.

Lemma each_wait_witness :
  exists w' st',
    run Cases.escalating (handleResponse Sample.subscribers Sample.limited_retryable)
      Sample.start = (Resolved (Sample.limited "5"), w')
    /\ delays (trace w') = [EvDelay 2000; EvDelay 3000; EvDelay 4000]
    /\ 9000 <= clock w'
    /\ states w' !! "GET:/v1/subscribers" = Some st'
    /\ retryAfter st' = 5.
Proof.
  destruct (each_wait_uses_latest_retry_after Cases.escalating Sample.start
              Sample.subscribers Sample.limited_retryable
              (Sample.limited "3") (Sample.limited "4") (Sample.limited "5")
              eq_refl eq_refl eq_refl eq_refl eq_refl eq_refl eq_refl)
    as (w' & st' & Hrun & Ht & Hc & Hst & _ & Hra & _).
  exists w', st'. split; [exact Hrun|]. split; [by rewrite Ht|].
  split; [exact Hc|]. split; [exact Hst|exact Hra].
Defined.

(** ** The [Retry-After] header *)

(** X8: a [Retry-After] value that does not begin, after white space and
    at most one sign, with a decimal digit (an HTTP date, say) gives the
    fallback of 1 second; any other value is read by [parseInt]. *)
Theorem retry_after_non_numeric_falls_back (response : Response) (value : string)
    (Hget : headers_get "Retry-After" (headers response) = Some value) :
  (starts_numeric value = false -> getRetryAfterTime response = 1)
  /\ (starts_numeric value = true ->
      parseInt10 value = Some (getRetryAfterTime response)).
Proof.
  unfold getRetryAfterTime. rewrite Hget. split.
  - intros H%parseInt10_NaN. rewrite H. by destruct (truthy value).
  - intros H. destruct (parseInt10 value) as [n|] eqn:Hn.
    + destruct value; [done|]. done.
    + apply parseInt10_NaN in Hn. congruence.
Qed.

Lemma retry_after_date_witness : getRetryAfterTime Cases.dated = 1.
Proof.
  apply (retry_after_non_numeric_falls_back Cases.dated "Wed, 21 Oct 2015 07:28:00 GMT");
    reflexivity.
Defined.

(** X9: text after the digits of a [Retry-After] value is ignored: a value
    that [parseInt] reads as [n], followed by anything that does not begin
    with a digit, is still read as [n]. *)
Theorem retry_after_ignores_text_after_digits
    (response : Response) (value suffix : string) (n : Z)
    (Hget : headers_get "Retry-After" (headers response) = Some (value ++ suffix))
    (Hvalue : parseInt10 value = Some n)
    (Hsuffix : head_is_digit suffix = false) :
  getRetryAfterTime response = n.
Proof.
  unfold getRetryAfterTime. rewrite Hget, (parseInt10_suffix _ _ n) by done.
  destruct value as [|c value]; [done|]. done.
Qed.

Lemma retry_after_unit_witness : getRetryAfterTime Cases.with_unit = 30.
Proof.
  apply (retry_after_ignores_text_after_digits Cases.with_unit "30" " seconds" 30);
    reflexivity.
Defined.

(** ** Hooks in flight *)

Lemma tidy_insert σ k : tidy σ -> tidy (<[k := freshState]> σ).
Proof.
  intros H k' st. destruct (decide (k = k')) as [->|Hne].
  - rewrite lookup_insert_eq. by intros [= <-].
  - rewrite lookup_insert_ne by done. apply H.
Qed.

Lemma tidy_alter σ k f :
  (forall st, queue (f st) = queue st /\ processing (f st) = processing st) ->
  tidy σ -> tidy (alter f k σ).
Proof.
  intros Hf H k' st. destruct (decide (k = k')) as [->|Hne].
  - rewrite lookup_alter_eq. destruct (σ !! k') as [st0|] eqn:H0; [|done].
    intros [= <-]. destruct (Hf st0) as [-> ->]. by apply (H k').
  - rewrite lookup_alter_ne by done. apply H.
Qed.

Lemma throttled_insert_fresh σ k k0 :
  throttled (<[k := freshState]> σ) k0 = true -> throttled σ k0 = true /\ k0 <> k.
Proof.
  unfold throttled. destruct (decide (k = k0)) as [->|Hne].
  - by rewrite lookup_insert_eq.
  - by rewrite lookup_insert_ne.
Qed.

Lemma throttled_alter_flag σ k b k0 :
  throttled (alter (with_isThrottled b) k σ) k0 = true ->
  (k0 = k /\ b = true) \/ (throttled σ k0 = true /\ k0 <> k).
Proof.
  unfold throttled. destruct (decide (k = k0)) as [->|Hne].
  - rewrite lookup_alter_eq. destruct (σ !! k0); [|done]. cbn. intros ->. by left.
  - rewrite lookup_alter_ne by done. by right.
Qed.

(** One segment of a careful program. *)
Lemma advance_careful (post : bool) (key : string) (now : Z) {A : Type} (p : Async A) :
  forall σ : gmap string EndpointState,
  careful post key p -> tidy σ ->
  careful post key (advance p σ now).1
  /\ tidy (advance p σ now).2
  /\ forall k, throttled (advance p σ now).2 k = true ->
       (post = true /\ k = key /\ clears key (advance p σ now).1)
       \/ (throttled σ k = true
           /\ (k = key -> clears key p -> clears key (advance p σ now).1)).
Proof.
  induction p as [a|e|X e k IH]; intros σ Hc Ht.
  - cbn. split; [done|]. split; [done|]. intros k0 H0. right. by split.
  - cbn. split; [done|]. split; [done|]. intros k0 H0. right. by split.
  - assert (Hstay : careful post key (Vis e k) /\ tidy σ
              /\ forall k0, throttled σ k0 = true ->
                   (post = true /\ k0 = key /\ clears key (Vis e k))
                   \/ (throttled σ k0 = true
                       /\ (k0 = key -> clears key (Vis e k) -> clears key (Vis e k)))).
    { split; [done|]. split; [done|]. intros k0 H0. right. by split. }
    assert (Hplain : forall x σ1,
              careful post key (k x) -> tidy σ1 ->
              (forall k0, throttled σ1 k0 = true -> throttled σ k0 = true) ->
              (clears key (Vis e k) -> clears key (k x)) ->
              careful post key (advance (k x) σ1 now).1
              /\ tidy (advance (k x) σ1 now).2
              /\ forall k0, throttled (advance (k x) σ1 now).2 k0 = true ->
                   (post = true /\ k0 = key /\ clears key (advance (k x) σ1 now).1)
                   \/ (throttled σ k0 = true
                       /\ (k0 = key -> clears key (Vis e k) ->
                           clears key (advance (k x) σ1 now).1))).
    { intros x σ1 Hx Ht1 Hthr Hcl. destruct (IH x σ1 Hx Ht1) as (H1 & H2 & H3).
      split; [done|]. split; [done|]. intros k0 H0.
      destruct (H3 k0 H0) as [?|[Hs Himp]]; [by left|right]. split; [by apply Hthr|].
      intros Hk Hv. apply Himp; [done|]. by apply Hcl. }
    destruct e; cbn in Hc |- *; try exact Hstay.
    + (* DateNow *)
      apply Hplain; auto. intros [[]|H]; apply H.
    + (* StatesHas *)
      apply Hplain; auto. intros [[]|H]; apply H.
    + (* StatesSet *)
      destruct Hc as [-> Hc]. apply Hplain; auto.
      * by apply tidy_insert.
      * intros k0 H0. by apply throttled_insert_fresh in H0 as [? _].
      * intros [[]|H]; apply H.
    + (* StatesGet *)
      apply Hplain; auto. intros [[]|H]; apply H.
    + (* SetIsThrottled *)
      destruct Hc as [Hb Hc].
      destruct (IH tt (alter (with_isThrottled b) key0 σ) Hc) as (H1 & H2 & H3).
      { by apply tidy_alter. }
      split; [done|]. split; [done|]. intros k0 H0.
      destruct (H3 k0 H0) as [?|[Hs Himp]]; [by left|].
      apply throttled_alter_flag in Hs as [[-> ->]|[Hs Hne]].
      * destruct (Hb eq_refl) as (-> & -> & Hcl). left. split; [done|]. split; [done|].
        by apply Himp.
      * right. split; [done|]. intros -> [[-> _]|Hv]; [done|]. by apply Himp.
    + (* SetRetryAfter *)
      apply Hplain; auto.
      * by apply tidy_alter.
      * intros k0. by rewrite throttled_alter_same.
      * intros [[]|H]; apply H.
    + (* SetLastRetryTime *)
      apply Hplain; auto.
      * by apply tidy_alter.
      * intros k0. by rewrite throttled_alter_same.
      * intros [[]|H]; apply H.
    + (* ConsoleWarn *)
      apply Hplain; auto. intros [[]|H]; apply H.
Qed.

Lemma retryLoop_clears (request : Request) (n : nat) :
  forall (ra : Z) (last : Response),
  clears (getEndpointKey request)
    (retryLoop n request (getEndpointKey request) ra last ≫= λ r, mret (Some r)).
Proof.
  induction n as [|n IH]; intros ra last; cbn.
  - by left.
  - right. intros []. right. intros [r|e]; cbn; [|by left].
    destruct (status r =? 429); cbn; [|by left].
    right. intros parsed. destruct (retryable_body parsed); cbn; [|by left].
    right. intros []. right. intros now. right. intros []. apply IH.
Qed.

Lemma retryLoop_careful (request : Request) (n : nat) :
  forall (ra : Z) (last : Response),
  careful true (getEndpointKey request)
    (retryLoop n request (getEndpointKey request) ra last ≫= λ r, mret (Some r)).
Proof.
  induction n as [|n IH]; intros ra last; cbn.
  - done.
  - intros [] [r|e]; cbn; [|done].
    destruct (status r =? 429); cbn; [|done].
    intros parsed. destruct (retryable_body parsed); cbn; [|done].
    intros [] now []. apply IH.
Qed.

Lemma onResponse_careful (request : Request) (response : Response) :
  careful true (getEndpointKey request) (onResponse request response).
Proof.
  unfold onResponse. destruct (status response =? 429) eqn:Hs; [|done].
  unfold handleResponse. rewrite Hs. cbn -[retryLoop maxRetries].
  intros parsed. destruct (retryable_body parsed); cbn -[retryLoop maxRetries]; [|done].
  assert (Hrest : forall found : option EndpointState,
    careful true (getEndpointKey request)
      (bind
         (bind match found with Some state => mret state | None => Throw "TypeError" end
            (fun _ =>
               Vis (SetIsThrottled (getEndpointKey request) true)
                 (fun _ => Vis (SetRetryAfter (getEndpointKey request)
                                  (getRetryAfterTime response))
                   (fun _ => Vis DateNow
                     (fun now => Vis (SetLastRetryTime (getEndpointKey request) now)
                       (fun _ => retryLoop maxRetries request (getEndpointKey request)
                                   (getRetryAfterTime response) response))))))
         (fun r => mret (Some r)))).
  { intros [st|]; cbn -[retryLoop maxRetries]; [|done]. split.
    - intros _. split; [done|]. split; [done|]. right. intros []. right. intros now.
      right. intros []. apply retryLoop_clears.
    - intros [] now []. apply retryLoop_careful. }
  intros [|]; cbn -[retryLoop maxRetries].
  - apply Hrest.
  - split; [done|]. apply Hrest.
Qed.

Lemma onRequest_careful (request : Request) :
  careful false (getEndpointKey request) (onRequest request).
Proof.
  unfold onRequest, waitForThrottle, warnIfQueueTooLarge, getQueueSize,
    initEndpointState, getState.
  cbn. intros [|]; cbn; [|split; [done|]]; intros [st|]; cbn; try done.
  all: destruct (isThrottled st); cbn.
  all: try (intros now; destruct (0 <? _); cbn; repeat split; try done).
  all: try (intros found; destruct (maxQueueSize <=? _); cbn; done).
  all: try (intros [] found; destruct (maxQueueSize <=? _); cbn; done).
Qed.

Lemma resume_timer_continues (now : Z) :
  continues (fun since => @resume_timer since now).
Proof.
  intros since A [| |X e k] p1; cbn; try done. destruct e; try done.
  destruct (_ <=? _); [|done]. intros [= <-]. split.
  - intros post key H. apply H.
  - intros key [[]|H]. apply H.
Qed.

Lemma resume_fetch_continues (outcome : Response + Error) :
  continues (fun _ => @resume_fetch outcome).
Proof.
  intros since A [| |X e k] p1; cbn; try done. destruct e; try done.
  intros [= <-]. split.
  - intros post key H. apply H.
  - intros key [[]|H]. apply H.
Qed.

Lemma resume_json_continues : continues (fun _ => @resume_json).
Proof.
  intros since A [| |X e k] p1; cbn; try done. destruct e; try done.
  intros [= <-]. split.
  - intros post key H. apply H.
  - intros key [[]|H]. apply H.
Qed.

Lemma pool_insert_careful (l : list Task) (i : nat) (t' : Task) :
  (forall t, t ∈ l -> task_careful t) -> task_careful t' ->
  forall t, t ∈ <[i := t']> l -> task_careful t.
Proof.
  intros Hl Ht' t Ht. apply list_elem_of_lookup in Ht as [j Hj].
  destruct (decide (i = j)) as [->|Hne].
  - destruct (decide (j < List.length l)%nat).
    + rewrite list_lookup_insert_eq in Hj by done. by injection Hj as <-.
    + rewrite list_insert_ge in Hj by lia. apply Hl. by eapply list_elem_of_lookup_2.
  - rewrite list_lookup_insert_ne in Hj by done. apply Hl. by eapply list_elem_of_lookup_2.
Qed.

Lemma resume_at_held (pick : Z -> forall A : Type, Async A -> option (Async A))
    (i : nat) (g : gmap string (Z * Z)) (s s' : System) :
  continues pick -> flags_held s -> resume_at pick i g s = Some s' -> flags_held s'.
Proof.
  intros Hpick (Hpool & Htidy & Hheld). unfold resume_at.
  destruct (pool s !! i) as [t|] eqn:Hi; [|done].
  pose proof (lookup_lt_Some _ _ _ Hi) as Hlt.
  assert (Ht : task_careful t) by (apply Hpool; by eapply list_elem_of_lookup_2).
  destruct t as [request since p|request since p]; cbn in Ht |- *.
  - destruct (pick since _ p) as [p1|] eqn:Hp; [|done].
    destruct (Hpick _ _ _ _ Hp) as [Hc1 _].
    pose proof (advance_careful false (getEndpointKey request) (time s) p1 (store s)
                  (Hc1 _ _ Ht) Htidy) as (Hc' & Ht' & Hf').
    destruct (advance p1 (store s) (time s)) as [p' σ']. intros [= <-].
    split; [|split]; cbn.
    + by apply pool_insert_careful.
    + exact Ht'.
    + intros k Hk. destruct (Hf' k Hk) as [[? _]|[Hs _]]; [done|].
      destruct (Hheld k Hs) as (j & tj & Hj & Hh). exists j, tj. split; [|done].
      destruct (decide (i = j)) as [->|Hne]; [|by rewrite list_lookup_insert_ne].
      rewrite Hi in Hj. injection Hj as <-. done.
  - destruct (pick since _ p) as [p1|] eqn:Hp; [|done].
    destruct (Hpick _ _ _ _ Hp) as [Hc1 Hcl1].
    pose proof (advance_careful true (getEndpointKey request) (time s) p1 (store s)
                  (Hc1 _ _ Ht) Htidy) as (Hc' & Ht' & Hf').
    destruct (advance p1 (store s) (time s)) as [p' σ']. intros [= <-].
    split; [|split]; cbn.
    + by apply pool_insert_careful.
    + exact Ht'.
    + intros k Hk. destruct (Hf' k Hk) as [(_ & -> & Hcl)|[Hs Himp]].
      * exists i, (ResponseTask request (time s) p'). split; [|done].
        by rewrite list_lookup_insert_eq.
      * destruct (Hheld k Hs) as (j & tj & Hj & Hh).
        destruct (decide (i = j)) as [->|Hne].
        -- rewrite Hi in Hj. injection Hj as <-. destruct Hh as [<- Hh].
           exists j, (ResponseTask request (time s) p'). split.
           ++ by rewrite list_lookup_insert_eq.
           ++ split; [done|]. apply Himp; [done|]. by apply Hcl1.
        -- exists j, tj. split; [|done]. by rewrite list_lookup_insert_ne.
Qed.

Lemma move_held (s s' : System) (m : Move) :
  flags_held s -> apply_move m s = Some s' -> flags_held s'.
Proof.
  intros Hinv. pose proof Hinv as (Hpool & Htidy & Hheld).
  destruct m as [dt|r|r resp|i|i o|i].
  - cbn. by intros [= <-].
  - unfold apply_move.
    pose proof (advance_careful false (getEndpointKey r) (time s) (onRequest r) (store s)
                  (onRequest_careful r) Htidy) as (Hc' & Ht' & Hf').
    destruct (advance (onRequest r) (store s) (time s)) as [p' σ']. intros [= <-].
    split; [|split]; cbn.
    + intros t [Ht|Ht%list_elem_of_singleton]%elem_of_app; [by apply Hpool|by subst].
    + exact Ht'.
    + intros k Hk. destruct (Hf' k Hk) as [[? _]|[Hs _]]; [done|].
      destruct (Hheld k Hs) as (j & tj & Hj & Hh). exists j, tj. split; [|done].
      by apply lookup_app_l_Some.
  - unfold apply_move.
    pose proof (advance_careful true (getEndpointKey r) (time s) (onResponse r resp)
                  (store s) (onResponse_careful r resp) Htidy) as (Hc' & Ht' & Hf').
    destruct (advance (onResponse r resp) (store s) (time s)) as [p' σ']. intros [= <-].
    split; [|split]; cbn.
    + intros t [Ht|Ht%list_elem_of_singleton]%elem_of_app; [by apply Hpool|by subst].
    + exact Ht'.
    + intros k Hk. destruct (Hf' k Hk) as [(_ & -> & Hcl)|[Hs _]].
      * exists (List.length (pool s)), (ResponseTask r (time s) p'). split; [|done].
        by rewrite list_lookup_middle.
      * destruct (Hheld k Hs) as (j & tj & Hj & Hh). exists j, tj. split; [|done].
        by apply lookup_app_l_Some.
  - cbn. apply resume_at_held; [apply resume_timer_continues|done].
  - cbn. apply resume_at_held; [apply resume_fetch_continues|done].
  - cbn. destruct (pool s !! i); [|done].
    apply resume_at_held; [apply resume_json_continues|done].
Qed.

Lemma reachable_held (s : System) : reachable s -> flags_held s.
Proof.
  induction 1 as [t0|s m s' _ IH Hm].
  - split; [by intros t Ht%elem_of_nil|]. split.
    + intros k st Hst. cbn in Hst. by rewrite lookup_empty in Hst.
    + intros k Hk. cbn in Hk. unfold throttled in Hk. by rewrite lookup_empty in Hk.
  - by apply (move_held s s' m).
Qed.

(** X11: in every state that the hooks can reach, an endpoint whose
    throttled flag is set has a call of the post-receive hook in flight; so
    once every hook call has settled no endpoint is throttled. *)
Theorem throttled_only_while_a_post_receive_hook_runs (s : System) (Hreach : reachable s) :
  (forall k, throttled (store s) k = true ->
     exists i request since p,
       pool s !! i = Some (ResponseTask request since p)
       /\ getEndpointKey request = k /\ settled p = false)
  /\ ((forall t, t ∈ pool s -> task_settled t = true) ->
      forall k, throttled (store s) k = false).
Proof.
  destruct (reachable_held s Hreach) as (_ & _ & Hheld).
  assert (Hfirst : forall k, throttled (store s) k = true ->
     exists i request since p,
       pool s !! i = Some (ResponseTask request since p)
       /\ getEndpointKey request = k /\ settled p = false).
  { intros k Hk. destruct (Hheld k Hk) as (i & [r since p|r since p] & Hi & Hh); [done|].
    destruct Hh as [<- Hcl]. exists i, r, since, p. split; [done|]. split; [done|].
    by destruct p. }
  split; [exact Hfirst|]. intros Hall k.
  destruct (throttled (store s) k) eqn:Hk; [|done].
  destruct (Hfirst k Hk) as (i & r & since & p & Hi & _ & Hp).
  apply list_elem_of_lookup_2 in Hi. apply Hall in Hi. cbn in Hi. congruence.
Qed.

Lemma throttled_while_running_witness :
  exists i request since p,
    pool (Sample.after Sample.first_signal) !! i = Some (ResponseTask request since p)
    /\ getEndpointKey request = "GET:/v1/subscribers" /\ settled p = false.
Proof.
  refine (proj1 (throttled_only_while_a_post_receive_hook_runs
                   (Sample.after Sample.first_signal) _) "GET:/v1/subscribers" _).
  - apply after_reachable. vm_compute. reflexivity.
  - vm_compute. reflexivity.
Defined.

(** X10: in every state that the hooks can reach, every endpoint has an
    empty queue and is not processing; hence [getQueueSize] is 0 there and
    [warnIfQueueTooLarge] warns of nothing. *)
Theorem queues_stay_empty (s : System) (Hreach : reachable s) :
  (forall k st, store s !! k = Some st -> queue st = [] /\ processing st = false)
  /\ forall (env : Env) (w : World) (request : Request),
       states w = store s ->
       run env (getQueueSize request) w = (Resolved 0, w)
       /\ run env (warnIfQueueTooLarge request) w = (Resolved (), w).
Proof.
  destruct (reachable_held s Hreach) as (_ & Htidy & _).
  split; [exact Htidy|]. intros env w request Hw.
  assert (Hsize : queue_size (states w !! getEndpointKey request) = 0).
  { rewrite Hw. unfold queue_size.
    destruct (store s !! getEndpointKey request) as [st|] eqn:Hst; [|done].
    by destruct (Htidy _ _ Hst) as [-> _]. }
  split.
  - unfold getQueueSize. cbn. f_equal. f_equal. exact Hsize.
  - rewrite run_warnIfQueueTooLarge. unfold warned. by rewrite Hsize.
Qed.

Lemma queues_stay_empty_witness :
  run Sample.succeeds (getQueueSize Sample.subscribers)
    (with_states (store (Sample.after Sample.cleared_then_limited)) Sample.start)
  = (Resolved 0,
     with_states (store (Sample.after Sample.cleared_then_limited)) Sample.start).
Proof.
  refine (proj1 (proj2 (queues_stay_empty (Sample.after Sample.cleared_then_limited) _)
                   Sample.succeeds
                   (with_states (store (Sample.after Sample.cleared_then_limited))
                      Sample.start)
                   Sample.subscribers eq_refl)).
  apply after_reachable. vm_compute. reflexivity.
Defined.

Lemma signalled_lookup (key : string) (seconds now : Z) (σ : gmap string EndpointState) :
  exists st, signalled key seconds now σ !! key = Some st
    /\ isThrottled st = true /\ retryAfter st = seconds /\ lastRetryTime st = now.
Proof.
  unfold signalled. rewrite !lookup_alter_eq.
  destruct (ensure_present key σ) as [st ->]. by eexists.
Qed.

(** A post-receive hook called with a 429 first reads its body. *)
Lemma advance_onResponse_429 (request : Request) (response : Response)
    (σ : gmap string EndpointState) (now : Z) :
  status response = 429 ->
  advance (onResponse request response) σ now = (onResponse request response, σ)
  /\ awaited_body (onResponse request response) = Some response.
Proof.
  intros Hs. unfold onResponse, handleResponse. rewrite Hs. cbn. done.
Qed.

(** When the body is that of a retryable 429, the hook records the signal
    and starts its first wait. *)
Lemma advance_after_body (request : Request) (response : Response)
    (σ : gmap string EndpointState) (now : Z) (p1 : Async (option Response)) :
  retryable429 response = true ->
  resume_json (onResponse request response) = Some p1 ->
  (advance p1 σ now).2
  = signalled (getEndpointKey request) (getRetryAfterTime response) now σ
  /\ awaited_timer (advance p1 σ now).1 = Some (getRetryAfterTime response * 1000).
Proof.
  intros H429. pose proof (retryable429_status _ H429) as Hs.
  pose proof (retryable429_body _ H429) as Hb.
  unfold onResponse, handleResponse. rewrite Hs. cbn -[retryLoop maxRetries].
  intros [= <-]. rewrite Hb. cbn -[retryLoop maxRetries].
  unfold signalled, ensure.
  destruct (σ !! getEndpointKey request) as [st|] eqn:Hst; cbn -[retryLoop maxRetries].
  - rewrite Hst. cbn. done.
  - rewrite lookup_insert_eq. cbn. done.
Qed.

(** A pre-send hook that finds the flag set and the window open starts a
    timer for what is left of the window. *)
Lemma advance_onRequest_throttled (request : Request) (σ : gmap string EndpointState)
    (now : Z) (st : EndpointState) :
  σ !! getEndpointKey request = Some st -> isThrottled st = true ->
  0 < lastRetryTime st + retryAfter st * 1000 - now ->
  (advance (onRequest request) σ now).2 = σ
  /\ awaited_timer (advance (onRequest request) σ now).1
     = Some (lastRetryTime st + retryAfter st * 1000 - now).
Proof.
  intros Hst Hthr Hrem. unfold onRequest, waitForThrottle, initEndpointState, getState.
  cbn. rewrite Hst. cbn. rewrite Hst. cbn. rewrite Hthr. cbn.
  destruct (Z.ltb_spec 0 (lastRetryTime st + retryAfter st * 1000 - now)); [|lia].
  cbn. done.
Qed.

Lemma apply_CallOnResponse_429 (s : System) (request : Request) (response : Response) :
  status response = 429 ->
  apply_move (CallOnResponse request response) s
  = Some {| store := store s; time := time s;
            pool := pool s ++ [ResponseTask request (time s) (onResponse request response)];
            signals := signals s |}.
Proof.
  intros Hs. unfold apply_move.
  by destruct (advance_onResponse_429 request response (store s) (time s) Hs) as [-> _].
Qed.

(** X12: the two hooks together.  From any state, when the post-receive
    hook is called with a retryable 429 and has read its body, the flag of
    the endpoint is set; a pre-send hook called [dt] ms later for a request
    of the same endpoint, inside the window, changes nothing and starts a
    timer for the rest of the window, and this timer cannot fire before the
    window ends. *)
Theorem presend_during_retry_waits_remaining
    (s : System) (request request' : Request) (response : Response) (dt : nat)
    (H429 : retryable429 response = true)
    (Hsame : getEndpointKey request' = getEndpointKey request)
    (Hdt : Z.of_nat dt < getRetryAfterTime response * 1000) :
  exists s1 s2 p,
    exec [CallOnResponse request response; JsonSettles (List.length (pool s)); Tick dt] s
    = Some s1
    /\ throttled (store s1) (getEndpointKey request) = true
    /\ apply_move (CallOnRequest request') s1 = Some s2
    /\ store s2 = store s1
    /\ pool s2 !! S (List.length (pool s))
       = Some (RequestTask request' (time s + Z.of_nat dt) p)
    /\ awaited_timer p = Some (getRetryAfterTime response * 1000 - Z.of_nat dt)
    /\ (getRetryAfterTime response * 1000 - Z.of_nat dt <= 2147483647 ->
        forall dt2 : nat,
          Z.of_nat dt + Z.of_nat dt2 < getRetryAfterTime response * 1000 ->
          exec [Tick dt2; TimerFires (S (List.length (pool s)))] s2 = None).
Proof.
  pose proof (retryable429_status _ H429) as Hs.
  (* the post-receive hook is called and reads the body *)
  cbn [exec]. rewrite (apply_CallOnResponse_429 s request response Hs).
  cbn [apply_move pool]. rewrite list_lookup_middle by done.
  unfold resume_at. cbn [pool store time]. rewrite list_lookup_middle by done.
  cbn [resume_task].
  destruct (resume_json (onResponse request response)) as [p1|] eqn:Hjson.
  2: { exfalso. revert Hjson. unfold onResponse, handleResponse. rewrite Hs. done. }
  destruct (advance_after_body request response (store s) (time s) p1 H429 Hjson)
    as [Hσ Htimer].
  destruct (advance p1 (store s) (time s)) as [p2 σ2]. cbn in Hσ, Htimer. subst σ2.
  cbn [apply_move store time pool signals].
  destruct (signalled_lookup (getEndpointKey request) (getRetryAfterTime response)
              (time s) (store s)) as (st & Hst & Hthr & Hra & Hlast).
  (* the pre-send hook is called while the window is open *)
  assert (Hrem : 0 < lastRetryTime st + retryAfter st * 1000 - (time s + Z.of_nat dt))
    by (rewrite Hra, Hlast; lia).
  assert (Hst' : signalled (getEndpointKey request) (getRetryAfterTime response)
                   (time s) (store s) !! getEndpointKey request' = Some st)
    by (by rewrite Hsame).
  destruct (advance_onRequest_throttled request' _ (time s + Z.of_nat dt) st Hst' Hthr Hrem)
    as [Hσ' Htimer'].
  destruct (advance (onRequest request')
              (signalled (getEndpointKey request) (getRetryAfterTime response)
                 (time s) (store s))
              (time s + Z.of_nat dt)) as [p3 σ3] eqn:Hadv.
  cbn in Hσ', Htimer'. subst σ3.
  eexists. eexists. exists p3. split; [reflexivity|].
  split. { cbn [store]. unfold throttled. rewrite Hst. exact Hthr. }
  split. { unfold apply_move. cbn [store time]. rewrite Hadv. reflexivity. }
  split; [reflexivity|].
  assert (Hlen : List.length
            (<[List.length (pool s) := ResponseTask request (time s) p2]>
               (pool s ++ [ResponseTask request (time s) (onResponse request response)])%list)
          = S (List.length (pool s)))
    by (rewrite length_insert, length_app; cbn; lia).
  assert (Hlook : forall t : Task,
            (<[List.length (pool s) := ResponseTask request (time s) p2]>
               (pool s ++ [ResponseTask request (time s) (onResponse request response)])
             ++ [t])%list !! S (List.length (pool s)) = Some t).
  { intros t. rewrite <- Hlen. by rewrite list_lookup_middle. }
  split. { cbn [pool]. apply Hlook. }
  split. { rewrite Htimer'. f_equal. rewrite Hra, Hlast. lia. }
  intros Hmax dt2 Hdt2. cbn [exec apply_move]. unfold resume_at. cbn [pool store time].
  rewrite Hlook. cbn [resume_task].
  destruct p3 as [| |X e k]; try done. destruct e; try done. cbn in Htimer'.
  injection Htimer' as ->. cbn [resume_timer].
  rewrite Hra, Hlast in *. unfold timer_floor.
  destruct (Z.leb_spec 0 (time s + getRetryAfterTime response * 1000
                          - (time s + Z.of_nat dt))); [|lia].
  destruct (Z.leb_spec (time s + getRetryAfterTime response * 1000
                        - (time s + Z.of_nat dt)) 2147483647); [|lia].
  cbn [andb].
  destruct (Z.leb_spec (time s + Z.of_nat dt
                        + (time s + getRetryAfterTime response * 1000
                           - (time s + Z.of_nat dt)))
              (time s + Z.of_nat dt + Z.of_nat dt2)); [lia|done].
Qed.

Lemma presend_during_retry_witness :
  exists s1 s2 p,
    exec [CallOnResponse Sample.subscribers (Sample.limited "2"); JsonSettles 0; Tick 500]
      (boot 0) = Some s1
    /\ apply_move (CallOnRequest Sample.subscribers_query) s1 = Some s2
    /\ pool s2 !! 1%nat = Some (RequestTask Sample.subscribers_query 500 p)
    /\ awaited_timer p = Some 1500.
Proof.
  destruct (presend_during_retry_waits_remaining (boot 0) Sample.subscribers
              Sample.subscribers_query (Sample.limited "2") 500)
    as (s1 & s2 & p & H1 & _ & H2 & _ & Hp & Ht & _).
  - reflexivity.
  - reflexivity.
  - vm_compute. reflexivity.
  - exists s1, s2, p. split; [exact H1|]. split; [exact H2|]. split; [exact Hp|exact Ht].
Defined.

(** ** The two revisions of [handleResponse] *)

Lemma loops_agree (env : Env) (request : Request) (key : string) (n : nat) :
  never_final env request ->
  forall (ra : Z) (last : Response) (w v : World),
  sends w = sends v -> trace w = trace v ->
  (run env (retryLoop n request key ra last) w).1
  = (run env (Earlier.retryLoop n request key ra last) v).1
  /\ sends (run env (retryLoop n request key ra last) w).2
     = sends (run env (Earlier.retryLoop n request key ra last) v).2
  /\ trace (run env (retryLoop n request key ra last) w).2
     = trace (run env (Earlier.retryLoop n request key ra last) v).2.
Proof.
  intros Hall. induction n as [|n IH]; intros ra last w v Hs Ht.
  - cbn. by rewrite Hs, Ht.
  - rewrite run_retryLoop_S. cbn zeta. cbn [Earlier.retryLoop]. cbn -[retryLoop Earlier.retryLoop].
    rewrite <- Hs. destruct (transport env (sends w) request) as [r|e] eqn:Hr;
      cbn -[retryLoop Earlier.retryLoop].
    + destruct (Z.eqb_spec (status r) 429) as [H429|H429]; cbn -[retryLoop Earlier.retryLoop].
      * rewrite (Hall _ _ Hr H429). cbn [negb]. apply IH; cbn; by rewrite ?Hs, ?Ht.
      * by rewrite Hs, Ht.
    + by rewrite Hs, Ht.
Qed.

(** X13: the revision with [isRetryable] does what the earlier one does
    as long as no 429 says it must not be retried: the same result, the
    same waits and sends in the same order. *)
Theorem revisions_agree_unless_told_not_to_retry
    (env : Env) (w : World) (request : Request) (response : Response)
    (Hresponse : status response = 429 -> retryable_body (jsonBody response) = true)
    (Hall : never_final env request) :
  (run env (handleResponse request response) w).1
  = (run env (Earlier.handleResponse request response) w).1
  /\ sends (run env (handleResponse request response) w).2
     = sends (run env (Earlier.handleResponse request response) w).2
  /\ trace (run env (handleResponse request response) w).2
     = trace (run env (Earlier.handleResponse request response) w).2.
Proof.
  destruct (Z.eqb_spec (status response) 429) as [H429|H429].
  - assert (Hr : retryable429 response = true).
    { unfold retryable429. rewrite H429, (Hresponse H429). done. }
    rewrite run_handleResponse_retryable by done.
    unfold Earlier.handleResponse. rewrite H429. cbn -[Earlier.retryLoop retryLoop maxRetries].
    unfold armed, ensure.
    destruct (states w !! getEndpointKey request) as [st|] eqn:Hst;
      cbn -[Earlier.retryLoop retryLoop maxRetries].
    + rewrite Hst. cbn -[Earlier.retryLoop retryLoop maxRetries]. by apply loops_agree.
    + rewrite lookup_insert_eq. cbn -[Earlier.retryLoop retryLoop maxRetries].
      by apply loops_agree.
  - unfold handleResponse, Earlier.handleResponse.
    destruct (Z.eqb_spec (status response) 429); done.
Qed.

Lemma revisions_agree_witness :
  (run Sample.always_limited (handleResponse Sample.subscribers (Sample.limited "1"))
     Sample.start).1
  = (run Sample.always_limited
       (Earlier.handleResponse Sample.subscribers (Sample.limited "1")) Sample.start).1.
Proof.
  apply (revisions_agree_unless_told_not_to_retry Sample.always_limited Sample.start
           Sample.subscribers (Sample.limited "1")).
  - reflexivity.
  - intros j r [= <-] _. reflexivity.
Defined.
